(** * Boot orchestrator of the kernel (threads/init.c, here src/kroyounho/pintos.c)

    A shallow embedding of [read_command_line], [parse_options],
    [run_actions], [paging_init] and [main], and the properties of the
    specification that concern them.

    Conventions of the model.
    - The loader's argument window is a byte list [mem]; a [char *] into it is
      the offset (a [nat]) from [ptov (LOADER_ARGS)].  The list may be longer
      than the window: what lies behind the window is physical memory too.
    - A NULL-terminated [char **] is the list of its non-null entries.
    - Every call that leaves this file (scheduler, allocator, file system,
      test runner, devices) appends an [event] to the trace; [printf] appends
      its text to the console.
    - PANIC, [power_off] and undefined C behaviour end the computation: they
      are the [Stop] outcomes of the monad [M]. *)

From Stdlib Require Import ZArith Ascii String DecimalString Sorted.
From stdpp Require Import base tactics option list strings gmap.

Local Open Scope string_scope.
Local Open Scope list_scope.
Local Open Scope nat_scope.

(** ** Build configuration: the [#ifdef] switches of the file. *)

Record build := Build {
  FILESYS : bool;
  USERPROG : bool;
  VM : bool
}.

(** ** Outcomes *)

Inductive halt :=
| Panic (msg : string)          (* PANIC (msg) of this file *)
| PanicExt (who : string)       (* an assertion that fails inside a collaborator *)
| PoweredOff                    (* power_off (): outw, then the endless wait *)
| ThreadExited                  (* thread_exit () at the end of main *)
| Undefined (why : string)      (* behaviour the C standard leaves undefined *)
| Hang.                         (* a loop that never ends *)

Inductive event :=
| EvCall (fn : string)                      (* a parameterless external call *)
| EvRandomInit (seed : Z)
| EvRunTest (task : string)
| EvProcessCreateInitd (task : string)
| EvProcessWait
| EvFsutil (fn : string) (argv : list nat)
| EvFilesysInit (format : bool)
| EvPallocGetPage (flags : string)
| EvPml4Activate (arg : Z)
| EvOutw (port val : Z).

Inductive outcome (S A : Type) :=
| Ret (a : A) (s : S)
| Stop (h : halt) (s : S).
Arguments Ret {S A} a s.
Arguments Stop {S A} h s.

(** ** Kernel state: the globals of the file, the argument window, the
    console and the trace.  [PT] is the state of the memory that holds the
    page tables together with the page allocator. *)

Record kstate (PT : Type) := KState {
  mem : list ascii;
  base_pml4 : Z;
  format_filesys : bool;
  power_off_when_done : bool;
  thread_tests : bool;
  thread_mlfqs : bool;          (* extern, threads/thread.h *)
  user_page_limit : Z;          (* extern, threads/palloc.h *)
  console : list string;
  trace : list event;
  pts : PT
}.
Arguments KState {PT}.
Arguments mem {PT}.
Arguments base_pml4 {PT}.
Arguments format_filesys {PT}.
Arguments power_off_when_done {PT}.
Arguments thread_tests {PT}.
Arguments thread_mlfqs {PT}.
Arguments user_page_limit {PT}.
Arguments console {PT}.
Arguments trace {PT}.
Arguments pts {PT}.

Definition M (PT A : Type) : Type := kstate PT → outcome (kstate PT) A.

Section Monad.
Context {PT : Type}.
Abbreviation st := (kstate PT).

Definition ret {A} (a : A) : M PT A := λ s, Ret a s.
Definition bind {A B} (m : M PT A) (k : A → M PT B) : M PT B :=
  λ s, match m s with
       | Ret a s' => k a s'
       | Stop h s' => Stop h s'
       end.
Definition stop {A} (h : halt) : M PT A := λ s, Stop h s.
Definition get : M PT st := λ s, Ret s s.
Definition modify (f : st → st) : M PT unit := λ s, Ret tt (f s).

Definition set_mem (m : list ascii) (s : st) : st :=
  KState m (base_pml4 s) (format_filesys s) (power_off_when_done s)
         (thread_tests s) (thread_mlfqs s) (user_page_limit s)
         (console s) (trace s) (pts s).
Definition set_base_pml4 (v : Z) (s : st) : st :=
  KState (mem s) v (format_filesys s) (power_off_when_done s)
         (thread_tests s) (thread_mlfqs s) (user_page_limit s)
         (console s) (trace s) (pts s).
Definition set_format_filesys (b : bool) (s : st) : st :=
  KState (mem s) (base_pml4 s) b (power_off_when_done s)
         (thread_tests s) (thread_mlfqs s) (user_page_limit s)
         (console s) (trace s) (pts s).
Definition set_power_off_when_done (b : bool) (s : st) : st :=
  KState (mem s) (base_pml4 s) (format_filesys s) b
         (thread_tests s) (thread_mlfqs s) (user_page_limit s)
         (console s) (trace s) (pts s).
Definition set_thread_tests (b : bool) (s : st) : st :=
  KState (mem s) (base_pml4 s) (format_filesys s) (power_off_when_done s)
         b (thread_mlfqs s) (user_page_limit s)
         (console s) (trace s) (pts s).
Definition set_thread_mlfqs (b : bool) (s : st) : st :=
  KState (mem s) (base_pml4 s) (format_filesys s) (power_off_when_done s)
         (thread_tests s) b (user_page_limit s)
         (console s) (trace s) (pts s).
Definition set_user_page_limit (v : Z) (s : st) : st :=
  KState (mem s) (base_pml4 s) (format_filesys s) (power_off_when_done s)
         (thread_tests s) (thread_mlfqs s) v
         (console s) (trace s) (pts s).
Definition set_console (c : list string) (s : st) : st :=
  KState (mem s) (base_pml4 s) (format_filesys s) (power_off_when_done s)
         (thread_tests s) (thread_mlfqs s) (user_page_limit s)
         c (trace s) (pts s).
Definition set_trace (t : list event) (s : st) : st :=
  KState (mem s) (base_pml4 s) (format_filesys s) (power_off_when_done s)
         (thread_tests s) (thread_mlfqs s) (user_page_limit s)
         (console s) t (pts s).
Definition set_pts (p : PT) (s : st) : st :=
  KState (mem s) (base_pml4 s) (format_filesys s) (power_off_when_done s)
         (thread_tests s) (thread_mlfqs s) (user_page_limit s)
         (console s) (trace s) p.

(** [printf] and the calls that leave the file. *)
Definition printf (text : string) : M PT unit :=
  modify (λ s, set_console (console s ++ [text]) s).
Definition emit (e : event) : M PT unit :=
  modify (λ s, set_trace (trace s ++ [e]) s).
Definition PANIC {A} (msg : string) : M PT A := stop (Panic msg).
End Monad.

#[global] Instance M_ret {PT} : MRet (M PT) := λ A, @ret PT A.
#[global] Instance M_bind {PT} : MBind (M PT) := λ A B k m, @bind PT A B m k.

(** ** C strings in the window *)

Definition NUL : ascii := "000"%char.

(** The text of a line feed. *)
Definition nl : string := String "010"%char EmptyString.

(** [strnlen (p, n)]: the bytes before the first NUL among the [n] bytes at
    [l]; [None] when the scan leaves the modelled memory. *)
Fixpoint strnlen_list (l : list ascii) (n : nat) : option nat :=
  match n with
  | O => Some O
  | S n' =>
      match l with
      | [] => None
      | c :: l' => if Ascii.eqb c NUL then Some O else S <$> strnlen_list l' n'
      end
  end.

(** The NUL-terminated string at [l]; [None] when no NUL follows. *)
Fixpoint cstr (l : list ascii) : option string :=
  match l with
  | [] => None
  | c :: l' => if Ascii.eqb c NUL then Some EmptyString else String c <$> cstr l'
  end.

Section CString.
Context {PT : Type}.

Definition strnlen (p n : nat) : M PT nat :=
  λ s, match strnlen_list (drop p (mem s)) n with
       | Some k => Ret k s
       | None => Stop (Undefined "strnlen: read outside memory") s
       end.

(** Reading the string a [char *] points to ([%s], [strcmp], [strchr]). *)
Definition cstring (p : nat) : M PT string :=
  λ s, match cstr (drop p (mem s)) with
       | Some str => Ret str s
       | None => Stop (Undefined "unterminated string") s
       end.

(** [*p] *)
Definition load (p : nat) : M PT ascii :=
  λ s, match mem s !! p with
       | Some c => Ret c s
       | None => Stop (Undefined "read outside memory") s
       end.

(** [*p = c] *)
Definition store (p : nat) (c : ascii) : M PT unit :=
  λ s, if decide (p < length (mem s))
       then Ret tt (set_mem (<[p := c]> (mem s)) s)
       else Stop (Undefined "write outside memory") s.
End CString.

(** [strchr (s, c) != NULL] for [c] different from NUL. *)
Fixpoint strchr (s : string) (c : ascii) : bool :=
  match s with
  | EmptyString => false
  | String d s' => Ascii.eqb d c || strchr s' c
  end.

(** ** 4.2 Boot-argument extractor *)

Section ReadCommandLine.
Context {PT : Type}.
(** [LOADER_ARGS_LEN] (threads/loader.h): the byte length of the window.
    [ARG_CNT]: the 32-bit word the loader left at [LOADER_ARG_CNT]. *)
Variable LOADER_ARGS_LEN : nat.
Variable ARG_CNT : Z.

(** The conversion of the 32-bit count at [LOADER_ARG_CNT] to [int argc]. *)
Definition int_of_uint32 (w : Z) : Z :=
  let w := (w mod 2 ^ 32)%Z in
  if (w <? 2 ^ 31)%Z then w else (w - 2 ^ 32)%Z.

(** [static char *argv[LOADER_ARGS_LEN / 2 + 1]] *)
Definition argv_capacity : nat := LOADER_ARGS_LEN / 2 + 1.

(** The first loop: [n] iterations remain, [i] is the index, [p] the
    cursor, [argv] the entries written so far. *)
Fixpoint read_args (n i p : nat) (argv : list nat) : M PT (list nat) :=
  match n with
  | O => mret argv
  | S n' =>
      if decide (LOADER_ARGS_LEN ≤ p)
      then PANIC "command line arguments overflow"
      else if decide (argv_capacity ≤ i)
      then stop (Undefined "argv[i]: index outside the array")
      else
        len ← strnlen p (LOADER_ARGS_LEN - p);
        read_args n' (S i) (p + len + 1) (argv ++ [p])
  end.

(** The second loop: the echo of the tokens. *)
Fixpoint echo_args (argv : list nat) : M PT unit :=
  match argv with
  | [] => mret tt
  | p :: rest =>
      tok ← cstring p;
      (if strchr tok " "%char
       then printf (" '" +:+ tok +:+ "'")
       else printf (" " +:+ tok));;
      echo_args rest
  end.

Definition read_command_line : M PT (list nat) :=
  let argc := int_of_uint32 ARG_CNT in
  argv ← read_args (Z.to_nat argc) 0 0 [];
  (if decide (0 ≤ argc < Z.of_nat argv_capacity)%Z
   then mret tt
   else stop (Undefined "argv[argc]: index outside the array"));;
  printf "Kernel command line:";;
  echo_args argv;;
  printf nl;;
  mret argv.
End ReadCommandLine.

(** ** 4.5 Shutdown sequencer *)

Section Shutdown.
Context {PT : Type}.
Variable cfg : build.

Definition when (b : bool) (m : M PT unit) : M PT unit :=
  if b then m else mret tt.

Definition print_stats : M PT unit :=
  emit (EvCall "timer_print_stats");;
  emit (EvCall "thread_print_stats");;
  when (FILESYS cfg) (emit (EvCall "disk_print_stats"));;
  emit (EvCall "console_print_stats");;
  emit (EvCall "kbd_print_stats");;
  when (USERPROG cfg) (emit (EvCall "exception_print_stats")).

Definition power_off {A} : M PT A :=
  when (FILESYS cfg) (emit (EvCall "filesys_done"));;
  print_stats;;
  printf ("Powering off..." +:+ nl);;
  emit (EvOutw 0x604 0x2000);;
  stop PoweredOff.

Definition usage_text : string :=
  nl +:+ "Command line syntax: [OPTION...] [ACTION...]" +:+ nl +:+
  "Options must precede actions." +:+ nl +:+
  "Actions are executed in the order specified." +:+ nl +:+
  nl +:+ "Available actions:" +:+ nl +:+
  (if USERPROG cfg
   then "  run 'PROG [ARG...]' Run PROG and wait for it to complete." +:+ nl
   else "  run TEST           Run TEST." +:+ nl) +:+
  (if FILESYS cfg
   then "  ls                 List files in the root directory." +:+ nl +:+
        "  cat FILE           Print FILE to the console." +:+ nl +:+
        "  rm FILE            Delete FILE." +:+ nl +:+
        "Use these actions indirectly via `pintos' -g and -p options:" +:+ nl +:+
        "  put FILE           Put FILE into file system from scratch disk." +:+ nl +:+
        "  get FILE           Get FILE from file system into scratch disk." +:+ nl
   else EmptyString) +:+
  nl +:+ "Options:" +:+ nl +:+
  "  -h                 Print this help message and power off." +:+ nl +:+
  "  -q                 Power off VM after actions or on panic." +:+ nl +:+
  "  -f                 Format file system disk during startup." +:+ nl +:+
  "  -rs=SEED           Set random number seed to SEED." +:+ nl +:+
  "  -mlfqs             Use multi-level feedback queue scheduler." +:+ nl +:+
  (if USERPROG cfg
   then "  -ul=COUNT          Limit user memory to COUNT pages." +:+ nl
   else EmptyString).

Definition usage {A} : M PT A :=
  printf usage_text;;
  power_off.
End Shutdown.

(** ** The C library: [strtok_r] and [atoi] *)

(** The offset of the first byte of [l] on which [stop_at] holds. *)
Fixpoint scan (stop_at : ascii → bool) (l : list ascii) : option nat :=
  match l with
  | [] => None
  | c :: l' => if stop_at c then Some 0 else S <$> scan stop_at l'
  end.

Definition is_nul (c : ascii) : bool := Ascii.eqb c NUL.

Section Strtok.
Context {PT : Type}.

(** [strtok_r (s, delimiters, &save_ptr)], with [s] the start of a new scan
    or [None] for NULL, and [save] the value of [save_ptr] on entry.  The
    result is the token (or NULL) and the new [save_ptr].  A delimiter that
    ends the token is overwritten with NUL, in place. *)
Definition strtok_r (s : option nat) (delimiters : string) (save : option nat)
  : M PT (option nat * option nat) :=
  match (match s with Some p => Some p | None => save end) with
  | None => stop (Undefined "strtok_r: no string to scan")
  | Some s0 =>
      m ← (λ st, Ret (mem st) st);
      (* skip the delimiters at the current position *)
      match scan (λ c, is_nul c || negb (strchr delimiters c)) (drop s0 m) with
      | None => stop (Undefined "strtok_r: read outside memory")
      | Some n1 =>
          let s1 := s0 + n1 in
          c1 ← load s1;
          if is_nul c1 then mret (None, Some s1)
          else
            (* skip the non-delimiters up to the end of the string *)
            match scan (λ c, is_nul c || strchr delimiters c) (drop s1 m) with
            | None => stop (Undefined "strtok_r: read outside memory")
            | Some n2 =>
                let s2 := s1 + n2 in
                c2 ← load s2;
                if is_nul c2 then mret (Some s1, Some s2)
                else store s2 NUL;; mret (Some s1, Some (S s2))
            end
      end
  end.
End Strtok.

Definition isspace (c : ascii) : bool :=
  let n := nat_of_ascii c in
  (n =? 32) || ((9 <=? n) && (n <=? 13)).

Definition isdigit (c : ascii) : bool :=
  let n := nat_of_ascii c in (48 <=? n) && (n <=? 57).

Fixpoint skip_space (s : string) : string :=
  match s with
  | String c s' => if isspace c then skip_space s' else s
  | EmptyString => s
  end.

Fixpoint digits_value (s : string) (acc : Z) : Z :=
  match s with
  | String c s' =>
      if isdigit c
      then digits_value s' (acc * 10 + (Z.of_nat (nat_of_ascii c) - 48))%Z
      else acc
  | EmptyString => acc
  end.

(** The value of an [int] that arithmetic has taken out of range. The C
    standard leaves it undefined; the model wraps, as the x86-64 code does. *)
Definition wrap_int (z : Z) : Z :=
  ((z + 2 ^ 31) mod 2 ^ 32 - 2 ^ 31)%Z.

(** [atoi] on the text of a non-null string: white space, an optional sign,
    then the longest run of decimal digits. *)
Definition atoi_text (s : string) : Z :=
  match skip_space s with
  | String "-"%char r => wrap_int (- digits_value r 0)
  | String "+"%char r => wrap_int (digits_value r 0)
  | r => wrap_int (digits_value r 0)
  end.

Section Atoi.
Context {PT : Type}.

(** [atoi (value)]: a null [value] is dereferenced. *)
Definition atoi (value : option nat) : M PT Z :=
  match value with
  | None => stop (Undefined "atoi: null pointer")
  | Some p => txt ← cstring p; mret (atoi_text txt)
  end.
End Atoi.

(** ** 4.3 Option parser *)

Section ParseOptions.
Context {PT : Type}.
Variable cfg : build.

(** The body of the loop, for the token at [p].  [txt] is the text of
    [name]; each [strcmp (name, lit)] compares it with a literal. *)
Definition parse_option (p : nat) : M PT unit :=
  '(name, save_ptr) ← strtok_r (Some p) "=" None;
  '(value, save_ptr) ← strtok_r None EmptyString save_ptr;
  txt ← match name with
        | None => stop (Undefined "strcmp: null pointer")
        | Some q => cstring q
        end;
  if String.eqb txt "-h" then usage cfg
  else if String.eqb txt "-q" then modify (set_power_off_when_done true)
  else if FILESYS cfg && String.eqb txt "-f" then modify (set_format_filesys true)
  else if String.eqb txt "-rs" then
    seed ← atoi value; emit (EvRandomInit seed)
  else if String.eqb txt "-mlfqs" then modify (set_thread_mlfqs true)
  else if USERPROG cfg && String.eqb txt "-ul" then
    n ← atoi value; modify (set_user_page_limit n)
  else if USERPROG cfg && String.eqb txt "-threads-tests" then
    modify (set_thread_tests true)
  else PANIC ("unknown option `" +:+ txt +:+ "' (use -h for help)").

Fixpoint parse_options (argv : list nat) : M PT (list nat) :=
  match argv with
  | [] => mret []
  | p :: rest =>
      c ← load p;
      if Ascii.eqb c "-"%char
      then parse_option p;; parse_options rest
      else mret argv
  end.
End ParseOptions.

(** ** 4.4 Action dispatcher *)

Section RunActions.
Context {PT : Type}.
Variable cfg : build.

(** [argv[i]], NULL ([None]) at the terminator. *)
Definition arg (argv : list nat) (i : nat) : option nat := argv !! i.

Definition run_task (argv : list nat) : M PT unit :=
  match arg argv 1 with
  | None => stop (Undefined "run_task: null task")
  | Some q =>
      task ← cstring q;
      printf ("Executing '" +:+ task +:+ "':" +:+ nl);;
      (if USERPROG cfg
       then
         s ← get;
         if thread_tests s
         then emit (EvRunTest task)
         else emit (EvProcessCreateInitd task);; emit EvProcessWait
       else emit (EvRunTest task));;
      printf ("Execution of '" +:+ task +:+ "' complete." +:+ nl)
  end.

Definition fsutil (fn : string) (argv : list nat) : M PT unit :=
  emit (EvFsutil fn argv).

Record action := Action {
  name : string;
  argc : nat;
  function : list nat → M PT unit
}.

(** The table, without its closing [{NULL, 0, NULL}]. *)
Definition actions : list action :=
  Action "run" 2 run_task ::
  (if FILESYS cfg
   then [ Action "ls" 1 (fsutil "fsutil_ls");
          Action "cat" 2 (fsutil "fsutil_cat");
          Action "rm" 2 (fsutil "fsutil_rm");
          Action "put" 2 (fsutil "fsutil_put");
          Action "get" 2 (fsutil "fsutil_get") ]
   else []).

(** [for (a = actions;; a++)]: the first entry whose name is the token. *)
Definition find_action (tok : string) : option action :=
  List.find (λ a, String.eqb tok (name a)) actions.

(** [%d] *)
Definition decimal (z : Z) : string := NilZero.string_of_int (Z.to_int z).

(** [for (i = 1; i < a->argc; i++) if (argv[i] == NULL) PANIC (...)] *)
Fixpoint check_args (tok : string) (a : action) (argv : list nat) (n i : nat)
  : M PT unit :=
  match n with
  | O => mret tt
  | S n' =>
      match arg argv i with
      | None =>
          PANIC ("action `" +:+ tok +:+ "' requires " +:+
                 decimal (Z.of_nat (argc a) - 1) +:+ " argument(s)")
      | Some _ => check_args tok a argv n' (S i)
      end
  end.

(** The [while] loop; every round consumes [argc] tokens, so [length argv]
    rounds are enough. *)
Fixpoint run_actions_loop (fuel : nat) (argv : list nat) : M PT unit :=
  match argv with
  | [] => mret tt
  | p :: _ =>
      match fuel with
      | O => stop Hang
      | S fuel' =>
          tok ← cstring p;
          match find_action tok with
          | None => PANIC ("unknown action `" +:+ tok +:+ "' (use -h for help)")
          | Some a =>
              check_args tok a argv (argc a - 1) 1;;
              function a argv;;
              run_actions_loop fuel' (drop (argc a) argv)
          end
      end
  end.

Definition run_actions (argv : list nat) : M PT unit :=
  run_actions_loop (length argv) argv.
End RunActions.
Arguments name {PT}.
Arguments argc {PT}.
Arguments function {PT}.

(** ** 4.1 Address-space bootstrapper *)

(** What [paging_init] takes from threads/vaddr.h, threads/pte.h,
    threads/mmu.h, threads/palloc.h and the linker script, none of which is
    part of this file: the constants, the two linker symbols, the page
    allocator, the table walk, and 64-bit loads and stores through an entry
    pointer.  [PT] is the state they act on. *)
Class Mmu (PT : Type) := {
  PGSIZE : Z;
  PTE_P : Z;
  PTE_W : Z;
  KERN_BASE : Z;
  start : Z;                    (* (uint64_t) &start *)
  _end_kernel_text : Z;         (* (uint64_t) &_end_kernel_text *)
  (* palloc_get_page (PAL_ZERO): a zeroed page, or NULL *)
  palloc_get_page : PT → option Z * PT;
  (* pml4e_walk (pml4, va, create): the leaf entry for va, or NULL *)
  pml4e_walk : PT → Z → Z → bool → option Z * PT;
  load64 : PT → Z → Z;
  store64 : PT → Z → Z → PT
}.

Section Paging.
Context {PT : Type} `{Mmu PT}.
Local Open Scope Z_scope.

(** Modelled from the spec: [ptov] (threads/vaddr.h) is not part of the
    source; the glossary gives virtual address = physical address +
    constant base.  The sum is a [uint64_t]. *)
Definition ptov (pa : Z) : Z := (pa + KERN_BASE) mod 2 ^ 64.

Definition in_kernel_text (va : Z) : bool :=
  (start <=? va) && (va <? _end_kernel_text).

(** [perm] at the end of the loop body.  Both constants are small and
    non-negative, so the [int] arithmetic is the arithmetic of [Z]. *)
Definition perm_for (va : Z) : Z :=
  let perm := Z.lor PTE_P PTE_W in
  if in_kernel_text va then Z.land perm (Z.lnot PTE_W) else perm.

(** One round of the loop, on the page-table memory. *)
Definition map_page (pml4 pa : Z) (s : PT) : PT :=
  let va := ptov pa in
  let perm := perm_for va in
  match pml4e_walk s pml4 va true with
  | (Some pte, s1) => store64 s1 pte (Z.lor pa perm)
  | (None, s1) => s1
  end.

(** [for (pa = 0; pa < mem_end; pa += PGSIZE)], from the current [pa];
    [None] when [fuel] rounds do not reach [mem_end]. *)
Fixpoint paging_loop (fuel : nat) (pml4 mem_end pa : Z) (s : PT) : option PT :=
  if pa <? mem_end then
    match fuel with
    | O => None
    | S fuel' =>
        paging_loop fuel' pml4 mem_end ((pa + PGSIZE) mod 2 ^ 64)
                    (map_page pml4 pa s)
    end
  else Some s.

(** Rounds that suffice when [pa] does not wrap around; if it does, the
    loop of the source never ends. *)
Definition paging_fuel (mem_end : Z) : nat := Z.to_nat (mem_end / PGSIZE + 1).

Definition paging_init (mem_end : Z) : M PT unit :=
  s ← get;
  emit (EvPallocGetPage "PAL_ASSERT | PAL_ZERO");;
  match palloc_get_page (pts s) with
  | (None, _) => stop (PanicExt "palloc_get_page")
  | (Some pml4, s1) =>
      modify (set_base_pml4 pml4);;
      match paging_loop (paging_fuel mem_end) pml4 mem_end 0 s1 with
      | None => stop Hang
      | Some s2 =>
          modify (set_pts s2);;
          emit (EvPml4Activate 0)
      end
  end.

(** The rounds of the loop for the pages [k], [k + 1], ..., [k + n - 1]. *)
Fixpoint map_pages (n : nat) (pml4 k : Z) (s : PT) : PT :=
  match n with
  | O => s
  | S n' => map_pages n' pml4 (k + 1) (map_page pml4 (k * PGSIZE) s)
  end.

(** The number of rounds of the loop: the pages below [mem_end]. *)
Definition pages_below (mem_end : Z) : Z := (mem_end + PGSIZE - 1) / PGSIZE.

(** [pml4e_walk (pml4, va, 0)]: the entry the table has for [va]. *)
Definition lookup (s : PT) (pml4 va : Z) : option Z :=
  (pml4e_walk s pml4 va false).1.

Definition pte_present (e : Z) : bool := Z.land e PTE_P =? PTE_P.
Definition pte_writable (e : Z) : bool := Z.land e PTE_W =? PTE_W.

(** The contract of the collaborators: the page is a power of two, the two
    flags are distinct bits below it, memory behaves as memory, and the
    walk keeps what it has built. *)
Record MmuSpec : Prop := {
  pgsize_pow2 : ∃ n, 0 ≤ n ≤ 64 ∧ PGSIZE = 2 ^ n;
  pte_p_range : 0 < PTE_P < PGSIZE;
  pte_w_range : 0 < PTE_W < PGSIZE;
  pte_p_w_disjoint : Z.land PTE_P PTE_W = 0;
  load_store_eq : ∀ s p v, load64 (store64 s p v) p = v;
  load_store_ne : ∀ s p q v, p ≠ q → load64 (store64 s p v) q = load64 s q;
  (* writing a leaf entry does not change which entry serves an address *)
  lookup_store : ∀ s r va p v va',
    lookup s r va = Some p → lookup (store64 s p v) r va' = lookup s r va';
  (* a successful creating walk returns the entry that now serves va *)
  walk_found : ∀ s r va p s',
    pml4e_walk s r va true = (Some p, s') → lookup s' r va = Some p;
  (* a creating walk keeps the entries that exist, and their contents *)
  walk_frame : ∀ s r va o s' va' q,
    pml4e_walk s r va true = (o, s') → lookup s r va' = Some q →
    lookup s' r va' = Some q ∧ load64 s' q = load64 s q;
  (* one entry serves one page *)
  lookup_inj : ∀ s r va va' p,
    lookup s r va = Some p → lookup s r va' = Some p →
    va / PGSIZE = va' / PGSIZE
}.
End Paging.

(** ** The entry point *)

Section Main.
Context {PT : Type} `{Mmu PT}.
Variable cfg : build.
Variable LOADER_ARGS_LEN : nat.
Variable ARG_CNT : Z.
(** The value [palloc_init ()] returns. *)
Variable MEM_END : Z.

Definition call (fn : string) : M PT unit := emit (EvCall fn).

(** [memset] over the uninitialised statics; those of this file are
    [base_pml4], [format_filesys], [power_off_when_done], [thread_tests]. *)
Definition bss_init : M PT unit :=
  modify (set_base_pml4 0%Z);;
  modify (set_format_filesys false);;
  modify (set_power_off_when_done false);;
  modify (set_thread_tests false).

Definition main : M PT Empty_set :=
  bss_init;;
  argv ← read_command_line LOADER_ARGS_LEN ARG_CNT;
  argv ← parse_options cfg argv;

  call "thread_init";;
  call "console_init";;

  call "palloc_init";;
  call "malloc_init";;
  paging_init MEM_END;;

  when (USERPROG cfg) (call "tss_init";; call "gdt_init");;

  call "intr_init";;
  call "timer_init";;
  call "kbd_init";;
  call "input_init";;
  when (USERPROG cfg) (call "exception_init";; call "syscall_init");;
  call "thread_start";;
  call "serial_init_queue";;
  call "timer_calibrate";;

  when (FILESYS cfg)
    (call "disk_init";; s ← get; emit (EvFilesysInit (format_filesys s)));;

  when (VM cfg) (call "vm_init");;

  printf ("Boot complete." +:+ nl);;

  run_actions cfg argv;;

  s ← get;
  when (power_off_when_done s) (power_off cfg);;
  call "thread_exit";;
  stop ThreadExited.
End Main.

(** The start-up calls [main] issues, in the order of the source, and the
    part of them that follows [paging_init]. *)
Definition startup_before_paging : list event :=
  [EvCall "thread_init"; EvCall "console_init";
   EvCall "palloc_init"; EvCall "malloc_init"].

Definition startup_after_paging (cfg : build) (format : bool) : list event :=
  (if USERPROG cfg then [EvCall "tss_init"; EvCall "gdt_init"] else []) ++
  [EvCall "intr_init"; EvCall "timer_init"; EvCall "kbd_init";
   EvCall "input_init"] ++
  (if USERPROG cfg then [EvCall "exception_init"; EvCall "syscall_init"] else []) ++
  [EvCall "thread_start"; EvCall "serial_init_queue"; EvCall "timer_calibrate"] ++
  (if FILESYS cfg then [EvCall "disk_init"; EvFilesysInit format] else []) ++
  (if VM cfg then [EvCall "vm_init"] else []).

Definition paging_events : list event :=
  [EvPallocGetPage "PAL_ASSERT | PAL_ZERO"; EvPml4Activate 0].

Definition startup_names : list string :=
  ["thread_init"; "console_init"; "palloc_init"; "malloc_init";
   "tss_init"; "gdt_init"; "intr_init"; "timer_init"; "kbd_init";
   "input_init"; "exception_init"; "syscall_init"; "thread_start";
   "serial_init_queue"; "timer_calibrate"; "disk_init"; "vm_init"].

Definition is_startup (e : event) : bool :=
  match e with
  | EvCall fn => bool_decide (fn ∈ startup_names)
  | EvFilesysInit _ => true
  | _ => false
  end.

Definition is_alloc (e : event) : bool :=
  match e with
  | EvPallocGetPage _ => true
  | _ => false
  end.

(** Neither a start-up call nor a page allocation. *)
Definition calm (e : event) : Prop := is_startup e || is_alloc e = false.

(** The reading of the claim that [paging_init] completes before any start-up
    call: every start-up call of a trace lies behind the activation. *)
Definition paging_first (tr : list event) : Prop :=
  ∀ i j e, tr !! i = Some e → is_startup e = true →
           tr !! j = Some (EvPml4Activate 0) → j < i.

(** ** A small machine to run the model on

    A page-table memory with one level: the entry of a page lives at a fixed
    address computed from the page number, and exists once a page of the
    bounded pool has been spent on it.  The code of its kernel occupies the
    pages 1 and 2 of physical memory.  It meets [MmuSpec], and its pool can
    run dry, which is the case [paging_init] tests for. *)

Record flat_pt := FlatPt {
  cells : gmap Z Z;             (* the 64-bit words that have been written *)
  mapped : gset Z;              (* the pages that have an entry *)
  free_pages : nat              (* what is left in the pool *)
}.

Definition flat_slot (va : Z) : Z := (0x200000 + 8 * (va / 4096))%Z.

Definition flat_palloc (s : flat_pt) : option Z * flat_pt :=
  match free_pages s with
  | O => (None, s)
  | S k => (Some 0x100000%Z, FlatPt (cells s) (mapped s) k)
  end.

Definition flat_walk (s : flat_pt) (pml4 va : Z) (create : bool)
  : option Z * flat_pt :=
  if decide ((va / 4096)%Z ∈ mapped s) then (Some (flat_slot va), s)
  else if create then
    match free_pages s with
    | O => (None, s)
    | S k => (Some (flat_slot va),
              FlatPt (<[flat_slot va := 0%Z]> (cells s))
                     ({[ (va / 4096)%Z ]} ∪ mapped s) k)
    end
  else (None, s).

#[global] Instance flat_mmu : Mmu flat_pt := {|
  PGSIZE := 4096;
  PTE_P := 1;
  PTE_W := 2;
  KERN_BASE := 0x8004000000;
  start := 0x8004001000;
  _end_kernel_text := 0x8004003000;
  palloc_get_page := flat_palloc;
  pml4e_walk := flat_walk;
  load64 := λ s p, default 0%Z (cells s !! p);
  store64 := λ s p v, FlatPt (<[p := v]> (cells s)) (mapped s) (free_pages s)
|}.

(** A pool of [n] pages, nothing mapped. *)
Definition flat_init (n : nat) : flat_pt := FlatPt ∅ ∅ n.

(** The strings of [l], each followed by its NUL, one after the other. *)
Fixpoint pack (l : list string) : list ascii :=
  match l with
  | [] => []
  | s :: r => list_ascii_of_string s ++ NUL :: pack r
  end.

(** The state at power-on: window contents [m], page-table memory [p]. *)
Definition boot_state {PT} (m : list ascii) (p : PT) : kstate PT :=
  KState m 0 false false false false 0 [] [] p.

(** The window of the boot-argument examples: three strings that fill 22
    bytes, followed by memory that is not part of the window. *)
Definition window3 : list ascii :=
  pack ["-q"; "run"; "alarm-multiple"] ++ repeat NUL 10.

(** Memory whose third string is [n] times the letter x: with [n] = 120 the
    three strings fill 128 bytes, with [n] = 121 the last terminator is
    byte 128, the first byte behind a 128-byte window. *)
Definition window_x (n : nat) : list ascii :=
  pack ["-q"; "run"; string_of_list_ascii (repeat "x"%char n)].

(** The window of the option examples, as the loader leaves it: four strings
    in 128 bytes. *)
Definition options_window : list ascii :=
  pack ["-q"; "-rs=1234"; "run"; "a"] ++ repeat NUL 110.

(** The state an outcome ends in. *)
Definition final {S A} (o : outcome S A) : S :=
  match o with
  | Ret _ s => s
  | Stop _ s => s
  end.

(** ** Views used by the statements *)

(** Modelled from the spec: the BootConfiguration record of the data model.
    [random_init] (lib/random.c) is not part of the source; [randomSeed] is
    the seed of its latest call, read off the trace. *)
Record BootConfiguration := {
  powerOffWhenDone : bool;
  formatFilesystemOnBoot : bool;
  randomSeed : option Z;
  multiLevelFeedbackQueue : bool;
  userMemoryPageLimit : Z;
  selfTestMode : bool
}.

Definition seeds (tr : list event) : list Z :=
  omap (λ e, match e with EvRandomInit z => Some z | _ => None end) tr.

Definition configuration {PT} (s : kstate PT) : BootConfiguration :=
  {| powerOffWhenDone := power_off_when_done s;
     formatFilesystemOnBoot := format_filesys s;
     randomSeed := last (seeds (trace s));
     multiLevelFeedbackQueue := thread_mlfqs s;
     userMemoryPageLimit := user_page_limit s;
     selfTestMode := thread_tests s |}.

(** The options of section 6 that return to the parser, for a build. *)
Definition recognized (cfg : build) (nm : string) : bool :=
  String.eqb nm "-q" || (FILESYS cfg && String.eqb nm "-f")
  || String.eqb nm "-rs" || String.eqb nm "-mlfqs"
  || (USERPROG cfg && String.eqb nm "-ul")
  || (USERPROG cfg && String.eqb nm "-threads-tests").

(** No byte of [l] is NUL or a delimiter. *)
Definition plain (delimiters : string) (l : list ascii) : Prop :=
  Forall (λ c, is_nul c = false ∧ strchr delimiters c = false) l.

(** [m'] is [m] except that some '=' have become NUL. *)
Definition split_only (m m' : list ascii) : Prop :=
  length m' = length m ∧
  ∀ i, m' !! i = m !! i ∨ (m !! i = Some "="%char ∧ m' !! i = Some NUL).

(** In memory [m] the vector [rest] is empty or begins with a token that
    lacks the flag marker. *)
Definition at_action (m : list ascii) (rest : list nat) : Prop :=
  match rest with
  | [] => True
  | q :: _ => ∃ c, m !! q = Some c ∧ c ≠ "-"%char
  end.

Section Views.
Context {PT : Type}.

(** A computation that leaves the window as it is, whatever its outcome;
    one that at most turns '=' into NUL. *)
Definition mem_fixed {A} (m : M PT A) : Prop :=
  ∀ s, mem (final (m s)) = mem s.
Definition mem_split {A} (m : M PT A) : Prop :=
  ∀ s, split_only (mem s) (mem (final (m s))).

(** A computation whose events, whatever its outcome, all satisfy [P]. *)
Definition emits (P : event → Prop) {A} (m : M PT A) : Prop :=
  ∀ s, ∃ post, trace (final (m s)) = trace s ++ post ∧ Forall P post.

(** The loop body of [parse_options] seen from the split token: [nm] is
    the text of [name], [val] the text of [value] (or NULL). *)
Definition option_effect (cfg : build) (nm : string) (val : option string)
  : M PT unit :=
  if String.eqb nm "-h" then usage cfg
  else if String.eqb nm "-q" then modify (set_power_off_when_done true)
  else if FILESYS cfg && String.eqb nm "-f" then modify (set_format_filesys true)
  else if String.eqb nm "-rs" then
    match val with
    | None => stop (Undefined "atoi: null pointer")
    | Some v => emit (EvRandomInit (atoi_text v))
    end
  else if String.eqb nm "-mlfqs" then modify (set_thread_mlfqs true)
  else if USERPROG cfg && String.eqb nm "-ul" then
    match val with
    | None => stop (Undefined "atoi: null pointer")
    | Some v => modify (set_user_page_limit (atoi_text v))
    end
  else if USERPROG cfg && String.eqb nm "-threads-tests" then
    modify (set_thread_tests true)
  else PANIC ("unknown option `" +:+ nm +:+ "' (use -h for help)").

(** The state after a recognized option [nm] with value text [v]. *)
Definition set_flag (nm v : string) (s : kstate PT) : kstate PT :=
  if String.eqb nm "-q" then set_power_off_when_done true s
  else if String.eqb nm "-f" then set_format_filesys true s
  else if String.eqb nm "-rs"
  then set_trace (trace s ++ [EvRandomInit (atoi_text v)]) s
  else if String.eqb nm "-mlfqs" then set_thread_mlfqs true s
  else if String.eqb nm "-ul" then set_user_page_limit (atoi_text v) s
  else if String.eqb nm "-threads-tests" then set_thread_tests true s
  else s.
End Views.

(** ** Views used by the further properties *)

(** The name of an option token: the text before its first '='. *)
Fixpoint option_name (tok : string) : string :=
  match tok with
  | EmptyString => EmptyString
  | String c r =>
      if Ascii.eqb c "="%char then EmptyString else String c (option_name r)
  end.

(** The text behind the first '=' of a token, if it has one. *)
Fixpoint option_value (tok : string) : option string :=
  match tok with
  | EmptyString => None
  | String c r => if Ascii.eqb c "="%char then Some r else option_value r
  end.

(** [value] as the second [strtok_r] returns it: NULL when the token has no
    '=' or nothing behind it. *)
Definition value_arg (tok : string) : option string :=
  match option_value tok with
  | Some (String c r) => Some (String c r)
  | _ => None
  end.

(** The state after the first [strtok_r] on the token [tok] at [p]: the
    first '=', if there is one, has become NUL. *)
Definition split_state {PT} (p : nat) (tok : string) (s : kstate PT) : kstate PT :=
  match option_value tok with
  | Some _ => set_mem (<[p + String.length (option_name tok) := NUL]> (mem s)) s
  | None => s
  end.

(** The options the build knows, [-h] included. *)
Definition known_option (cfg : build) (nm : string) : bool :=
  String.eqb nm "-h" || recognized cfg nm.

(** What [power_off] sends to its collaborators, in order. *)
Definition shutdown_events (cfg : build) : list event :=
  (if FILESYS cfg then [EvCall "filesys_done"] else []) ++
  [EvCall "timer_print_stats"; EvCall "thread_print_stats"] ++
  (if FILESYS cfg then [EvCall "disk_print_stats"] else []) ++
  [EvCall "console_print_stats"; EvCall "kbd_print_stats"] ++
  (if USERPROG cfg then [EvCall "exception_print_stats"] else []) ++
  [EvOutw 0x604 0x2000].
(** The names of the action table of a build. *)
Definition action_names (cfg : build) : list string :=
  "run" :: (if FILESYS cfg then ["ls"; "cat"; "rm"; "put"; "get"] else []).

(** The calls [run_task] makes for [task]. *)
Definition task_events (cfg : build) (tests : bool) (task : string) : list event :=
  if USERPROG cfg && negb tests
  then [EvProcessCreateInitd task; EvProcessWait]
  else [EvRunTest task].
(** Where the strings of [l] begin when they are laid out from [p] on, each
    followed by its terminator. *)
Fixpoint offsets (p : nat) (l : list string) : list nat :=
  match l with
  | [] => []
  | t :: r => p :: offsets (p + String.length t + 1) r
  end.

(** What the echo loop of [read_command_line] prints for one token. *)
Definition echo_text (t : string) : string :=
  if strchr t " "%char then " '" +:+ t +:+ "'" else " " +:+ t.

(** The console after the echo of the tokens [toks]. *)
Definition echoed {PT} (toks : list string) (s : kstate PT) : kstate PT :=
  set_console
    (console s ++ "Kernel command line:" :: map echo_text toks ++ [nl]) s.
(** The variables the options set. *)
Definition option_variables {PT} (s : kstate PT) : bool * bool * bool * bool * Z :=
  (format_filesys s, power_off_when_done s, thread_tests s, thread_mlfqs s,
   user_page_limit s).

(** A computation whose final state, whatever its outcome, is related to
    its initial state by [R]. *)
Definition keeps {PT} (R : relation (kstate PT)) {A} (m : M PT A) : Prop :=
  ∀ s, R s (final (m s)).

(** From [s] to [s'] no flag has been cleared, the page tables and their
    root are the same, and the variables that exist only with the file
    system or with user programs are untouched in a build without them. *)
Definition raised (cfg : build) {PT} (s s' : kstate PT) : Prop :=
  base_pml4 s' = base_pml4 s ∧ pts s' = pts s ∧
  (power_off_when_done s = true → power_off_when_done s' = true) ∧
  (format_filesys s = true → format_filesys s' = true) ∧
  (thread_mlfqs s = true → thread_mlfqs s' = true) ∧
  (thread_tests s = true → thread_tests s' = true) ∧
  (FILESYS cfg = false → format_filesys s' = format_filesys s) ∧
  (USERPROG cfg = false →
   thread_tests s' = thread_tests s ∧ user_page_limit s' = user_page_limit s).

(** ** Views used by the statement on repeated options *)

(** The name of an option that takes a number. *)
Definition numeric_option (nm : string) : bool :=
  String.eqb nm "-rs" || String.eqb nm "-ul".

(** [tok] is an option on which the loop body returns to the parser: it
    begins with the flag marker, its name is an option of the build other
    than [-h], and a numeric option has a value behind its '='. *)
Definition returns_to_parser (cfg : build) (tok : string) : bool :=
  match tok with
  | String c _ => Ascii.eqb c "-"%char
  | EmptyString => false
  end
  && recognized cfg (option_name tok)
  && (negb (numeric_option (option_name tok)) || bool_decide (is_Some (value_arg tok))).

(** The tokens [toks], each given by its pointer and its text, are strings
    of the memory [m], and each token that stands later in the vector
    begins behind the name of every earlier one (where that one is split). *)
Fixpoint tokens_at (m : list ascii) (toks : list (nat * string)) : Prop :=
  match toks with
  | [] => True
  | (p, tok) :: r =>
      cstr (drop p m) = Some tok ∧
      Forall (λ qt, p + String.length (option_name tok) < qt.1) r ∧
      tokens_at m r
  end.

(** The state after the loop body for the option [tok] at [p]: the token
    is split and the variable of the option is set. *)
Definition apply_token {PT} (pt : nat * string) (s : kstate PT) : kstate PT :=
  set_flag (option_name pt.2) (default EmptyString (value_arg pt.2))
           (split_state pt.1 pt.2 s).

Fixpoint apply_tokens {PT} (toks : list (nat * string)) (s : kstate PT)
  : kstate PT :=
  match toks with
  | [] => s
  | pt :: r => apply_tokens r (apply_token pt s)
  end.

(** The seeds of the [-rs] tokens of a vector, in the order of the vector. *)
Definition token_seeds (toks : list (nat * string)) : list Z :=
  omap (λ pt : nat * string,
          if String.eqb (option_name pt.2) "-rs"
          then Some (atoi_text (default EmptyString (value_arg pt.2)))
          else None) toks.

(** The states [a] and [b] have the same configuration, the setting of the
    option [nm] apart. *)
Definition agree_but {PT} (nm : string) (a b : kstate PT) : Prop :=
  (nm ≠ "-q" → power_off_when_done a = power_off_when_done b) ∧
  (nm ≠ "-f" → format_filesys a = format_filesys b) ∧
  (nm ≠ "-mlfqs" → thread_mlfqs a = thread_mlfqs b) ∧
  (nm ≠ "-threads-tests" → thread_tests a = thread_tests b) ∧
  (nm ≠ "-ul" → user_page_limit a = user_page_limit b) ∧
  (nm ≠ "-rs" → last (seeds (trace a)) = last (seeds (trace b))).

(** * Properties *)

Ltac unfold_monad :=
  unfold call, when, PANIC, mbind, mret, M_bind, M_ret, bind, ret, emit,
         printf, modify, get, stop in *.

(** ** Boot-argument extractor *)

(** The three strings of [window3] end exactly at byte 22. *)
Lemma window3_terminators :
  window3 !! 2 = Some NUL ∧ window3 !! 6 = Some NUL ∧ window3 !! 21 = Some NUL.
Proof. by vm_compute. Qed.

(** A window that ends exactly behind the terminator of the third string is
    accepted. *)
Lemma read_command_line_exact_fit {PT} (p : PT) :
  ∃ s', read_command_line 22 3 (boot_state window3 p) = Ret [0; 3; 7] s'.
Proof. eexists. by vm_compute. Qed.

(** A window that ends at or before the start of the third string is
    refused: the test at the head of the loop sees it. *)
Lemma read_command_line_overflow_detected {PT} (p : PT) :
  ∃ s', read_command_line 7 3 (boot_state window3 p)
        = Stop (Panic "command line arguments overflow") s'.
Proof. eexists. by vm_compute. Qed.

(** C3, at the inputs on which the source departs from the claim: with an
    element count of 3 the 22-byte window is accepted, and so is the window
    that is one byte shorter, although the terminator of its third string
    (byte 21) lies outside it; no overflow halt is raised and the third
    pointer is handed on.  The same with the length held at 128: strings
    that fill the 128 bytes are accepted, and so are strings whose last
    terminator is the byte behind the window. *)
Theorem read_command_line_one_byte_short {PT} (p : PT) :
  (∃ s', read_command_line 22 3 (boot_state window3 p) = Ret [0; 3; 7] s') ∧
  (∃ s', read_command_line 21 3 (boot_state window3 p) = Ret [0; 3; 7] s') ∧
  read_command_line 21 3 (boot_state window3 p)
  ≠ Stop (Panic "command line arguments overflow")
         (final (read_command_line 21 3 (boot_state window3 p))) ∧
  length (window_x 120) = 128 ∧
  (∃ s', read_command_line 128 3 (boot_state (window_x 120) p)
         = Ret [0; 3; 7] s') ∧
  window_x 121 !! 127 = Some "x"%char ∧ window_x 121 !! 128 = Some NUL ∧
  (∃ s', read_command_line 128 3 (boot_state (window_x 121) p)
         = Ret [0; 3; 7] s').
Proof.
  split; [eexists; by vm_compute|].
  split; [eexists; by vm_compute|].
  split; [by vm_compute|].
  split; [by vm_compute|].
  split; [eexists; by vm_compute|].
  split; [by vm_compute|].
  split; [by vm_compute|].
  eexists; by vm_compute.
Qed.

(** ** Action dispatcher *)

(** C7: for the action list "run" "echoTest" with [thread_tests] set,
    [run_actions] calls [run_test] once, with "echoTest", calls neither
    [process_create_initd] nor [process_wait], and returns. *)
Theorem run_actions_self_test {PT} (cfg : build) (s : kstate PT) (p0 p1 : nat) :
  cstr (drop p0 (mem s)) = Some "run" →
  cstr (drop p1 (mem s)) = Some "echoTest" →
  thread_tests s = true →
  ∃ s', run_actions cfg [p0; p1] s = Ret tt s' ∧
        trace s' = trace s ++ [EvRunTest "echoTest"] ∧
        console s' = console s ++ ["Executing 'echoTest':" +:+ nl;
                                   "Execution of 'echoTest' complete." +:+ nl].
Proof.
  intros H0 H1 Ht.
  unfold run_actions. simpl.
  unfold mbind, M_bind, bind, cstring. rewrite H0. simpl.
  unfold run_task. simpl.
  unfold mbind, M_bind, bind, cstring. rewrite H1. simpl.
  destruct (USERPROG cfg); simpl; [rewrite Ht|];
    (eexists; split; [reflexivity|]; simpl; split; [reflexivity|];
     by rewrite <- app_assoc).
Qed.

Lemma run_actions_self_test_witness :
  ∃ s', run_actions (Build true true false) [0; 4]
          (set_thread_tests true (boot_state (pack ["run"; "echoTest"]) tt))
        = Ret tt s' ∧
        trace s' = [EvRunTest "echoTest"].
Proof.
  destruct (run_actions_self_test (Build true true false)
              (set_thread_tests true (boot_state (pack ["run"; "echoTest"]) tt))
              0 4)
    as (s' & Hrun & Htr & _);
    [by vm_compute | by vm_compute | reflexivity |].
  exists s'. split; [exact Hrun | exact Htr].
Defined.

(** C8: with file-system support compiled in, the action list "cat" halts
    with the message that one argument is required. *)
Theorem run_actions_cat_needs_argument {PT} (cfg : build) (s : kstate PT) (p : nat) :
  FILESYS cfg = true →
  cstr (drop p (mem s)) = Some "cat" →
  run_actions cfg [p] s = Stop (Panic "action `cat' requires 1 argument(s)") s.
Proof.
  intros Hf Hc.
  unfold run_actions. simpl.
  unfold mbind, M_bind, bind, cstring. rewrite Hc. simpl.
  unfold find_action, actions. rewrite Hf. simpl. reflexivity.
Qed.

Lemma run_actions_cat_needs_argument_witness :
  run_actions (Build true false false) [0] (boot_state (pack ["cat"]) tt)
  = Stop (Panic "action `cat' requires 1 argument(s)")
         (boot_state (pack ["cat"]) tt).
Proof.
  apply (run_actions_cat_needs_argument (Build true false false)
           (boot_state (pack ["cat"]) tt) 0); [reflexivity | by vm_compute].
Defined.

(** ** The fuel of the action loop *)

Section Fuel.
Context {PT : Type}.

Lemma find_action_argc cfg tok (a : @action PT) :
  find_action cfg tok = Some a → 1 ≤ argc a.
Proof.
  unfold find_action. intros Ha. apply find_some in Ha as [Hin _].
  unfold actions in Hin.
  destruct (FILESYS cfg); simpl in Hin;
    repeat (destruct Hin as [<-|Hin]; [simpl; lia|]); done.
Qed.

(** Any fuel that covers the length of the action list gives the same run:
    the loop of the model never stops for want of fuel. *)
Lemma run_actions_loop_fuel cfg fuel1 fuel2 argv (s : kstate PT) :
  length argv ≤ fuel1 → length argv ≤ fuel2 →
  run_actions_loop cfg fuel1 argv s = run_actions_loop cfg fuel2 argv s.
Proof.
  revert fuel2 argv s.
  induction fuel1 as [|fuel1 IH]; intros fuel2 [|p argv] s H1 H2;
    simpl in *; try lia.
  - by destruct fuel2.
  - by destruct fuel2.
  - destruct fuel2 as [|fuel2]; [lia|]. simpl.
    unfold mbind, M_bind, bind.
    destruct (cstring p s) as [tok s1|]; [|done].
    destruct (find_action cfg tok) as [a|] eqn:Ha; [|done].
    destruct (check_args tok a (p :: argv) (argc a - 1) 1 s1) as [[] s2|];
      [|done].
    destruct (function a (p :: argv) s2) as [[] s3|]; [|done].
    pose proof (find_action_argc cfg tok a Ha).
    apply IH; rewrite length_drop; simpl; lia.
Qed.
End Fuel.

(** ** C strings and [strtok_r] *)

Section Tok.
Context {PT : Type}.
Implicit Types (s : kstate PT) (t nm v : string) (l tl pre : list ascii).

Lemma scan_app (f : ascii → bool) (l1 l2 : list ascii) (c : ascii) :
  Forall (λ d, f d = false) l1 → f c = true →
  scan f (l1 ++ c :: l2) = Some (length l1).
Proof.
  intros Hl Hc. induction Hl as [|d l1 Hd _ IH]; simpl.
  - by rewrite Hc.
  - by rewrite Hd, IH.
Qed.

Lemma cstr_app t tl :
  strchr t NUL = false →
  cstr (list_ascii_of_string t ++ NUL :: tl) = Some t.
Proof.
  induction t as [|c t IH]; simpl; [done|].
  intros [Hc Ht]%orb_false_elim. rewrite Hc, (IH Ht). done.
Qed.

Lemma cstr_inv l t :
  cstr l = Some t →
  strchr t NUL = false ∧ ∃ tl, l = list_ascii_of_string t ++ NUL :: tl.
Proof.
  revert t. induction l as [|c l IH]; simpl; [done|].
  intros t. destruct (Ascii.eqb c NUL) eqn:Hc.
  - intros [= <-]. apply Ascii.eqb_eq in Hc as ->. split; [done|]. by exists l.
  - destruct (cstr l) as [t'|]; [|done]. simpl. intros [= <-].
    destruct (IH t' eq_refl) as (Hn & tl & ->). simpl. rewrite Hc, Hn.
    split; [done|]. by exists tl.
Qed.

Lemma nul_free_Forall t :
  strchr t NUL = false → Forall (λ d, is_nul d = false) (list_ascii_of_string t).
Proof.
  induction t as [|c t IH]; simpl; [constructor|].
  intros [Hc Ht]%orb_false_elim. constructor; [exact Hc | by apply IH].
Qed.

Lemma length_list_ascii t :
  length (list_ascii_of_string t) = String.length t.
Proof. induction t as [|c t IH]; simpl; [done | by rewrite IH]. Qed.

Lemma load_drop s p n l c :
  drop p (mem s) = l → l !! n = Some c → load (p + n) s = Ret c s.
Proof.
  intros <- Hn. unfold load. rewrite lookup_drop in Hn. by rewrite Hn.
Qed.

Lemma cstring_at s q t :
  cstr (drop q (mem s)) = Some t → cstring q s = Ret t s.
Proof. intros Hq. unfold cstring. by rewrite Hq. Qed.

Lemma strtok_r_first s p delimiters sv pre c tl :
  drop p (mem s) = pre ++ c :: tl →
  pre ≠ [] → plain delimiters pre →
  is_nul c || strchr delimiters c = true →
  strtok_r (Some p) delimiters sv s
  = if is_nul c then Ret (Some p, Some (p + length pre)) s
    else Ret (Some p, Some (S (p + length pre)))
             (set_mem (<[p + length pre := NUL]> (mem s)) s).
Proof.
  intros Hd Hne Hpl Hc. unfold strtok_r. unfold_monad. rewrite Hd.
  destruct pre as [|c0 pre]; [done|]. clear Hne.
  pose proof (Forall_inv Hpl) as [Hc0n Hc0d].
  assert (scan (λ c1, is_nul c1 || negb (strchr delimiters c1))
               ((c0 :: pre) ++ c :: tl) = Some 0) as ->.
  { simpl. by rewrite Hc0n, Hc0d. }
  rewrite (load_drop s p 0 _ c0 Hd eq_refl), Hc0n.
  rewrite Nat.add_0_r, Hd.
  rewrite (scan_app _ (c0 :: pre) tl c); [| |done]; cycle 1.
  { eapply Forall_impl; [exact Hpl|]. by intros d [-> ->]. }
  rewrite (load_drop s p (length (c0 :: pre)) _ c Hd); cycle 1.
  { by rewrite list_lookup_middle. }
  destruct (is_nul c); [done|].
  unfold store. rewrite decide_True; [done|].
  apply (f_equal length) in Hd. rewrite length_drop, length_app in Hd.
  simpl in *. lia.
Qed.

Lemma strtok_r_rest s q v tl :
  drop q (mem s) = list_ascii_of_string v ++ NUL :: tl →
  strchr v NUL = false →
  strtok_r None EmptyString (Some q) s
  = match v with
    | EmptyString => Ret (None, Some q) s
    | _ => Ret (Some q, Some (q + String.length v)) s
    end.
Proof.
  intros Hd Hv. unfold strtok_r. unfold_monad. rewrite Hd.
  destruct v as [|c v].
  - simpl. rewrite (load_drop s q 0 _ NUL Hd eq_refl). simpl. by rewrite Nat.add_0_r.
  - simpl in Hv. apply orb_false_elim in Hv as [Hc Hv].
    assert (scan (λ c1, is_nul c1 || negb (strchr EmptyString c1))
               (list_ascii_of_string (String c v) ++ NUL :: tl) = Some 0) as ->.
    { simpl. by rewrite orb_true_r. }
    rewrite (load_drop s q 0 _ c Hd eq_refl).
    unfold is_nul at 1. rewrite Hc.
    rewrite Nat.add_0_r, Hd.
    rewrite (scan_app _ (list_ascii_of_string (String c v)) tl NUL); [| |done];
      cycle 1.
    { eapply Forall_impl; [apply nul_free_Forall; simpl; by rewrite Hc, Hv|].
      simpl. intros d ->. done. }
    rewrite (load_drop s q _ _ NUL Hd); cycle 1.
    { by rewrite list_lookup_middle. }
    simpl. by rewrite length_list_ascii.
Qed.

Section Eff.
Variable cfg : build.

Lemma plain_eq_Forall nm :
  strchr nm NUL = false → strchr nm "="%char = false →
  plain "=" (list_ascii_of_string nm).
Proof.
  induction nm as [|c nm IH]; simpl; [constructor|].
  intros [Hc Hn]%orb_false_elim [Hc' He]%orb_false_elim.
  constructor; [|by apply IH].
  split; [exact Hc|]. cbn [strchr]. by rewrite Ascii.eqb_sym, Hc'.
Qed.

Lemma list_ascii_nonempty nm :
  nm ≠ EmptyString → list_ascii_of_string nm ≠ [].
Proof. by destruct nm. Qed.

Ltac dispatch_tail :=
  unfold option_effect;
  repeat match goal with
         | |- context [String.eqb ?a ?b] => destruct (String.eqb a b)
         | |- context [FILESYS ?c] => destruct (FILESYS c)
         | |- context [USERPROG ?c] => destruct (USERPROG c)
         end; try done.

Lemma parse_option_plain s p nm tl :
  drop p (mem s) = list_ascii_of_string nm ++ NUL :: tl →
  nm ≠ EmptyString → strchr nm NUL = false → strchr nm "="%char = false →
  parse_option cfg p s = option_effect cfg nm None s.
Proof.
  intros Hd Hne Hn He. unfold parse_option.
  unfold mbind at 1, M_bind at 1, bind at 1.
  rewrite (strtok_r_first s p "=" None (list_ascii_of_string nm) NUL tl Hd);
    [|by apply list_ascii_nonempty|by apply plain_eq_Forall|done].
  simpl.
  unfold mbind at 1, M_bind at 1, bind at 1.
  assert (Hd' : drop (p + length (list_ascii_of_string nm)) (mem s)
                = list_ascii_of_string EmptyString ++ NUL :: tl).
  { rewrite <- drop_drop, Hd, drop_app_length. done. }
  rewrite (strtok_r_rest s _ EmptyString tl Hd' eq_refl).
  unfold mbind at 1, M_bind at 1, bind at 1.
  rewrite (cstring_at s p nm) by (rewrite Hd; by apply cstr_app).
  dispatch_tail.
Qed.

Lemma atoi_at s q v :
  cstr (drop q (mem s)) = Some v → atoi (Some q) s = Ret (atoi_text v) s.
Proof.
  intros Hq. unfold atoi. unfold_monad. by rewrite (cstring_at s q v Hq).
Qed.

Lemma parse_option_valued s p nm v tl :
  drop p (mem s)
  = list_ascii_of_string nm ++ "="%char :: list_ascii_of_string v ++ NUL :: tl →
  nm ≠ EmptyString → strchr nm NUL = false → strchr nm "="%char = false →
  strchr v NUL = false →
  parse_option cfg p s
  = option_effect cfg nm (match v with EmptyString => None | _ => Some v end)
      (set_mem (<[p + String.length nm := NUL]> (mem s)) s).
Proof.
  intros Hd Hne Hn He Hv. unfold parse_option.
  unfold mbind at 1, M_bind at 1, bind at 1.
  rewrite (strtok_r_first s p "=" None (list_ascii_of_string nm) "="%char _ Hd);
    [|by apply list_ascii_nonempty|by apply plain_eq_Forall|done].
  simpl. rewrite length_list_ascii.
  set (s' := set_mem (<[p + String.length nm := NUL]> (mem s)) s).
  assert (Hval : drop (S (p + String.length nm)) (mem s')
                 = list_ascii_of_string v ++ NUL :: tl).
  { simpl. rewrite drop_insert_lt by lia.
    replace (S (p + String.length nm)) with (p + S (String.length nm)) by lia.
    rewrite <- drop_drop, Hd, <- length_list_ascii.
    change (?l ++ ?c :: ?r) with (l ++ [c] ++ r).
    rewrite app_assoc.
    replace (S (length (list_ascii_of_string nm)))
      with (length (list_ascii_of_string nm ++ ["="%char])) by (rewrite length_app; simpl; lia).
    by rewrite drop_app_length. }
  assert (Hnm : cstr (drop p (mem s')) = Some nm).
  { simpl. rewrite drop_insert_ge by lia.
    replace (p + String.length nm - p) with (length (list_ascii_of_string nm) + 0)
      by (rewrite length_list_ascii; lia).
    rewrite Hd, insert_app_r. simpl. by apply cstr_app. }
  unfold mbind at 1, M_bind at 1, bind at 1.
  rewrite (strtok_r_rest s' _ v tl Hval Hv).
  destruct v as [|c v].
  - unfold mbind at 1, M_bind at 1, bind at 1.
    rewrite (cstring_at s' p nm Hnm). dispatch_tail.
  - unfold mbind at 1, M_bind at 1, bind at 1.
    rewrite (cstring_at s' p nm Hnm).
    assert (Ha := atoi_at s' _ (String c v)
                    ltac:(rewrite Hval; by apply cstr_app)).
    dispatch_tail; unfold mbind, M_bind, bind; cbn [andb]; rewrite Ha; done.
Qed.
End Eff.
End Tok.

(** ** The boot-argument extractor in general *)

Section ReadGeneral.
Context {PT : Type}.
Implicit Types (s : kstate PT) (t a b c : string).

Lemma strnlen_list_string t tl n :
  strchr t NUL = false →
  strnlen_list (list_ascii_of_string t ++ NUL :: tl) n
  = Some (Nat.min n (String.length t)).
Proof.
  revert n. induction t as [|d t IH]; intros n Hn; simpl.
  - by destruct n.
  - apply orb_false_elim in Hn as [Hd Ht]. destruct n; [done|]. simpl.
    by rewrite Hd, IH.
Qed.

Lemma drop_pack_cons t l tl :
  drop (S (String.length t)) (pack (t :: l) ++ tl) = pack l ++ tl.
Proof.
  simpl. rewrite <- app_assoc. simpl.
  rewrite <- length_list_ascii.
  change (list_ascii_of_string t ++ NUL :: pack l ++ tl)
    with (list_ascii_of_string t ++ [NUL] ++ pack l ++ tl).
  rewrite app_assoc.
  replace (S (length (list_ascii_of_string t)))
    with (length (list_ascii_of_string t ++ [NUL]))
    by (rewrite length_app; simpl; lia).
  by rewrite drop_app_length.
Qed.

Lemma cstr_pack t l tl :
  strchr t NUL = false → cstr (pack (t :: l) ++ tl) = Some t.
Proof. intros Ht. simpl. rewrite <- app_assoc. by apply cstr_app. Qed.

Lemma strnlen_pack t l tl n :
  strchr t NUL = false →
  strnlen_list (pack (t :: l) ++ tl) n = Some (Nat.min n (String.length t)).
Proof. intros Ht. simpl. rewrite <- app_assoc. by apply strnlen_list_string. Qed.

Lemma read_args_round L n i p argv s len :
  p < L → i < argv_capacity L →
  strnlen_list (drop p (mem s)) (L - p) = Some len →
  read_args L (S n) i p argv s
  = read_args L n (S i) (p + len + 1) (argv ++ [p]) s.
Proof.
  intros Hp Hi Hlen. simpl.
  rewrite decide_False by lia. rewrite decide_False by lia.
  unfold mbind, M_bind, bind, strnlen. by rewrite Hlen.
Qed.

(** With an element count of 3, [read_command_line] accepts every window in
    which the third string begins, wherever that string ends. *)
Lemma read_command_line_third_begins L a b c rest s :
  mem s = pack [a; b; c] ++ rest →
  strchr a NUL = false → strchr b NUL = false → strchr c NUL = false →
  String.length a + String.length b + 2 < L → 6 ≤ L →
  ∃ s', read_command_line L 3 s
        = Ret [0; String.length a + 1; String.length a + String.length b + 2] s'.
Proof.
  intros Hm Ha Hb Hc Hin HL.
  assert (Hcap : 3 < argv_capacity L).
  { unfold argv_capacity. pose proof (Nat.div_mod_eq L 2).
    pose proof (Nat.mod_upper_bound L 2). lia. }
  assert (Hd1 : drop (String.length a + 1) (mem s) = pack [b; c] ++ rest).
  { rewrite Hm, Nat.add_1_r. apply drop_pack_cons. }
  assert (Hd2 : drop (String.length a + String.length b + 2) (mem s)
                = pack [c] ++ rest).
  { replace (String.length a + String.length b + 2)
      with (String.length a + 1 + S (String.length b)) by lia.
    rewrite <- drop_drop, Hd1. apply drop_pack_cons. }
  unfold read_command_line. change (Z.to_nat (int_of_uint32 3)) with 3.
  unfold mbind at 1, M_bind at 1, bind at 1.
  rewrite (read_args_round L 2 0 0 [] s (String.length a)); [|lia|lia|]; cycle 1.
  { rewrite drop_0, Hm, strnlen_pack by done. f_equal. lia. }
  rewrite (read_args_round L 1 1 _ _ s (String.length b)); [|lia|lia|]; cycle 1.
  { simpl. rewrite Hd1, strnlen_pack by done. f_equal. lia. }
  rewrite (read_args_round L 0 2 _ _ s
             (Nat.min (L - (String.length a + 1 + String.length b + 1))
                      (String.length c))); [|lia|lia|]; cycle 1.
  { simpl. replace (String.length a + 1 + String.length b + 1)
      with (String.length a + String.length b + 2) by lia.
    by rewrite Hd2, strnlen_pack. }
  simpl.
  rewrite decide_True; cycle 1.
  { change (int_of_uint32 3) with 3%Z. lia. }
  unfold mbind, M_bind, bind. simpl.
  rewrite (cstring_at _ 0 a) by (simpl; rewrite drop_0, Hm; by apply cstr_pack).
  destruct (strchr a " "); simpl.
  all: rewrite (cstring_at _ _ b) by (simpl; rewrite Hd1; by apply cstr_pack).
  all: destruct (strchr b " "); simpl.
  all: replace (String.length a + 1 + String.length b + 1)
         with (String.length a + String.length b + 2) by lia.
  all: rewrite (cstring_at _ _ c) by (simpl; rewrite Hd2; by apply cstr_pack).
  all: destruct (strchr c " "); simpl; by eexists.
Qed.
End ReadGeneral.

(** ** What the boot sequence writes into the window *)

Create HintDb memfix.

Section Frame.
Context {PT : Type}.
Implicit Types (s : kstate PT).

Lemma split_only_refl m : split_only m m.
Proof. split; [done|]. intros i. by left. Qed.

Lemma split_only_trans m1 m2 m3 :
  split_only m1 m2 → split_only m2 m3 → split_only m1 m3.
Proof.
  intros [Hl1 H1] [Hl2 H2]. split; [congruence|]. intros i.
  destruct (H2 i) as [E2|[E2 E2']], (H1 i) as [E1|[E1 E1']].
  - left. congruence.
  - right. split; congruence.
  - right. split; congruence.
  - rewrite E1' in E2. done.
Qed.

Lemma mem_fixed_split {A} (m : M PT A) : mem_fixed m → mem_split m.
Proof. intros Hm s. rewrite Hm. apply split_only_refl. Qed.

Lemma mem_fixed_bind {A B} (m : M PT A) (k : A → M PT B) :
  mem_fixed m → (∀ a, mem_fixed (k a)) → mem_fixed (m ≫= k).
Proof.
  intros Hm Hk s. unfold mbind, M_bind, bind.
  specialize (Hm s). destruct (m s) as [a s1|h s1]; simpl in *.
  - by rewrite Hk.
  - done.
Qed.

Lemma mem_split_bind {A B} (m : M PT A) (k : A → M PT B) :
  mem_split m → (∀ a, mem_split (k a)) → mem_split (m ≫= k).
Proof.
  intros Hm Hk s. unfold mbind, M_bind, bind.
  specialize (Hm s). destruct (m s) as [a s1|h s1]; simpl in *.
  - eapply split_only_trans; [exact Hm | apply Hk].
  - done.
Qed.

Lemma mem_fixed_ret {A} (a : A) : mem_fixed (mret a : M PT A).
Proof. by intros s. Qed.
Lemma mem_fixed_stop {A} h : mem_fixed (stop h : M PT A).
Proof. by intros s. Qed.
Lemma mem_fixed_PANIC {A} msg : mem_fixed (PANIC msg : M PT A).
Proof. by intros s. Qed.
Lemma mem_fixed_get : mem_fixed (get : M PT _).
Proof. by intros s. Qed.
Lemma mem_fixed_emit e : mem_fixed (emit e : M PT unit).
Proof. by intros s. Qed.
Lemma mem_fixed_printf t : mem_fixed (printf t : M PT unit).
Proof. by intros s. Qed.
Lemma mem_fixed_cstring p : mem_fixed (cstring p : M PT string).
Proof. intros s. unfold cstring. by destruct (cstr _). Qed.
Lemma mem_fixed_load p : mem_fixed (load p : M PT ascii).
Proof. intros s. unfold load. by destruct (_ !! _). Qed.
Lemma mem_fixed_strnlen p n : mem_fixed (strnlen p n : M PT nat).
Proof. intros s. unfold strnlen. by destruct (strnlen_list _ _). Qed.
Lemma mem_fixed_atoi v : mem_fixed (atoi v : M PT Z).
Proof.
  destruct v as [q|]; simpl; [|apply mem_fixed_stop].
  apply mem_fixed_bind; [apply mem_fixed_cstring|]. intros a. apply mem_fixed_ret.
Qed.
Lemma mem_fixed_when b (m : M PT unit) : mem_fixed m → mem_fixed (when b m).
Proof. destruct b; [done|]. intros _. apply mem_fixed_ret. Qed.

#[local] Hint Resolve mem_fixed_ret mem_fixed_stop mem_fixed_PANIC mem_fixed_get
  mem_fixed_emit mem_fixed_printf mem_fixed_cstring mem_fixed_load
  mem_fixed_strnlen mem_fixed_atoi : memfix.

Ltac mem_fixed_tac :=
  repeat first
    [ progress intros
    | apply mem_fixed_bind
    | apply mem_fixed_when
    | solve [eauto with memfix]
    | match goal with
      | |- mem_fixed (if ?b then _ else _) => destruct b
      | |- mem_fixed (match ?o with _ => _ end) => destruct o
      | |- mem_fixed (modify _) => by intros ?
      end ].

Lemma mem_fixed_power_off cfg {A} : mem_fixed (power_off cfg : M PT A).
Proof. unfold power_off, print_stats. mem_fixed_tac. Qed.

Lemma mem_fixed_usage cfg {A} : mem_fixed (usage cfg : M PT A).
Proof. unfold usage. mem_fixed_tac. Qed.

Lemma mem_fixed_read_command_line L n :
  mem_fixed (read_command_line L n : M PT _).
Proof.
  assert (Hargs : ∀ k i p argv, mem_fixed (read_args L k i p argv : M PT _)).
  { induction k as [|k IH]; intros i p argv; simpl; mem_fixed_tac. }
  assert (Hecho : ∀ argv, mem_fixed (echo_args argv : M PT _)).
  { induction argv as [|p argv IH]; simpl; mem_fixed_tac. }
  unfold read_command_line. mem_fixed_tac.
Qed.

Lemma mem_fixed_run_actions cfg argv : mem_fixed (run_actions cfg argv : M PT _).
Proof.
  unfold run_actions. generalize (length argv) as fuel. intros fuel.
  revert argv. induction fuel as [|fuel IH]; intros [|p argv]; simpl;
    try by mem_fixed_tac.
  apply mem_fixed_bind; [mem_fixed_tac|]. intros tok.
  destruct (find_action cfg tok) as [a|] eqn:Ha; [|mem_fixed_tac].
  apply mem_fixed_bind; [|intros _; apply mem_fixed_bind; [|intros _; apply IH]].
  - assert (Hc : ∀ n i, mem_fixed (check_args tok a (p :: argv) n i : M PT _)).
    { induction n as [|n IHn]; intros i; simpl; mem_fixed_tac. }
    apply Hc.
  - unfold find_action in Ha. apply find_some in Ha as [Hin _].
    unfold actions in Hin. 
    assert (Hrt : mem_fixed (run_task cfg (p :: argv) : M PT _)).
    { unfold run_task. mem_fixed_tac. }
    destruct (FILESYS cfg); simpl in Hin; 
      repeat (destruct Hin as [<-|Hin]; [first [exact Hrt | simpl; unfold fsutil; mem_fixed_tac]|]);
      done.
Qed.

Lemma scan_Some (f : ascii → bool) (l : list ascii) (n : nat) :
  scan f l = Some n → ∃ c, l !! n = Some c ∧ f c = true.
Proof.
  revert n. induction l as [|d l IH]; simpl; [done|]. intros n.
  destruct (f d) eqn:Hd.
  - intros [= <-]. by exists d.
  - destruct (scan f l) as [k|]; [|done]. simpl. intros [= <-].
    destruct (IH k eq_refl) as (c & Hc & Hf). by exists c.
Qed.

Lemma strtok_r_mem sp delimiters sv s :
  mem (final (strtok_r sp delimiters sv s)) = mem s ∨
  ∃ q c, mem s !! q = Some c ∧ strchr delimiters c = true ∧
         mem (final (strtok_r sp delimiters sv s)) = <[q := NUL]> (mem s).
Proof.
  unfold strtok_r.
  destruct (match sp with Some p => Some p | None => sv end) as [s0|];
    [|by left].
  unfold_monad. unfold load, store. cbv beta.
  destruct (scan _ (drop s0 (mem s))) as [n1|]; [|by left].
  destruct (mem s !! (s0 + n1)) as [c1|]; simpl; [|by left].
  destruct (is_nul c1); simpl; [by left|].
  destruct (scan _ (drop (s0 + n1) (mem s))) as [n2|] eqn:Hs2; [|by left].
  apply scan_Some in Hs2 as (c & Hc & Hf). rewrite lookup_drop in Hc.
  rewrite Hc. simpl.
  destruct (is_nul c) eqn:Hn; simpl; [by left|]. simpl in Hf.
  destruct (decide _); simpl; [|by left].
  right. by exists (s0 + n1 + n2), c.
Qed.

Lemma mem_fixed_strtok_r_rest sv :
  mem_fixed (strtok_r None EmptyString sv : M PT _).
Proof.
  intros s. destruct (strtok_r_mem None EmptyString sv s)
    as [E|(q & c & _ & Hc & _)]; [exact E | by simpl in Hc].
Qed.

Lemma split_only_insert m q :
  m !! q = Some "="%char → split_only m (<[q := NUL]> m).
Proof.
  intros Hq. split; [by rewrite length_insert|]. intros i.
  destruct (decide (i = q)) as [->|Hne].
  - right. split; [done|]. apply list_lookup_insert_eq.
    by eapply lookup_lt_Some.
  - left. by apply list_lookup_insert_ne.
Qed.

Lemma mem_split_strtok_r_first p :
  mem_split (strtok_r (Some p) "=" None : M PT _).
Proof.
  intros s. destruct (strtok_r_mem (Some p) "=" None s)
    as [->|(q & c & Hq & Hc & ->)]; [apply split_only_refl|].
  apply split_only_insert. cbn [strchr] in Hc. rewrite orb_false_r in Hc.
  apply Ascii.eqb_eq in Hc as <-. done.
Qed.

Lemma mem_split_parse_option cfg p : mem_split (parse_option cfg p : M PT _).
Proof.
  unfold parse_option.
  apply mem_split_bind; [apply mem_split_strtok_r_first|]. intros [name sv].
  apply mem_fixed_split.
  apply mem_fixed_bind; [apply mem_fixed_strtok_r_rest|]. intros [value sv'].
  pose proof (@mem_fixed_usage cfg unit).
  mem_fixed_tac.
Qed.

Lemma mem_split_parse_options cfg argv :
  mem_split (parse_options cfg argv : M PT _).
Proof.
  induction argv as [|p argv IH]; simpl.
  - apply mem_fixed_split, mem_fixed_ret.
  - apply mem_split_bind; [apply mem_fixed_split, mem_fixed_load|]. intros c.
    destruct (Ascii.eqb c "-"); [|apply mem_fixed_split, mem_fixed_ret].
    apply mem_split_bind; [apply mem_split_parse_option|]. intros _. apply IH.
Qed.
End Frame.

(** ** Option parser *)

Section ParseTheorems.
Context {PT : Type}.
Implicit Types (s : kstate PT).

Lemma split_only_marker_back m m' i :
  split_only m m' → m' !! i = Some "-"%char → m !! i = Some "-"%char.
Proof.
  intros [_ H] Hi. destruct (H i) as [E|[_ E]]; [congruence|].
  rewrite E in Hi. done.
Qed.

Lemma split_only_marker_forth m m' i :
  split_only m m' → m !! i = Some "-"%char → m' !! i = Some "-"%char.
Proof.
  intros [_ H] Hi. destruct (H i) as [E|[E _]]; [congruence|].
  rewrite E in Hi. done.
Qed.

Lemma parse_options_remainder cfg argv s r s' :
  parse_options cfg argv s = Ret r s' →
  ∃ opts, argv = opts ++ r ∧
          Forall (λ p, mem s !! p = Some "-"%char) opts ∧
          match r with
          | [] => True
          | p :: _ => mem s !! p ≠ Some "-"%char
          end.
Proof.
  revert s. induction argv as [|p argv IH]; intros s; simpl.
  - intros [= <- <-]. by exists [].
  - unfold mbind at 1, M_bind at 1, bind at 1. unfold load.
    destruct (mem s !! p) as [c|] eqn:Hp; [|done].
    destruct (Ascii.eqb c "-") eqn:Hc.
    + apply Ascii.eqb_eq in Hc as ->.
      unfold mbind, M_bind, bind.
      pose proof (mem_split_parse_option cfg p s) as Hsplit.
      destruct (parse_option cfg p s) as [[] s1|h s1]; [|done]. simpl in Hsplit.
      intros Hrest. destruct (IH s1 Hrest) as (opts & -> & Hopts & Hr).
      exists (p :: opts). split; [done|]. split.
      * constructor; [done|]. eapply Forall_impl; [exact Hopts|].
        intros q. by apply split_only_marker_back.
      * destruct r as [|q r]; [done|]. intros Hq. apply Hr.
        by eapply split_only_marker_forth.
    + intros [= <- <-]. exists []. split; [done|]. split; [constructor|].
      rewrite Hp. intros [= ->]. done.
Qed.

Lemma list_ascii_app (a b : string) :
  list_ascii_of_string (a +:+ b) = list_ascii_of_string a ++ list_ascii_of_string b.
Proof. induction a as [|c a IH]; simpl; [done | by rewrite IH]. Qed.

Lemma strchr_app (a b : string) (c : ascii) :
  strchr (a +:+ b) c = strchr a c || strchr b c.
Proof.
  induction a as [|d a IH]; simpl; [done|]. by rewrite IH, orb_assoc.
Qed.

Lemma load_marker s p nm :
  cstr (drop p (mem s)) = Some (String "-"%char nm) →
  load p s = Ret "-"%char s.
Proof.
  intros Hc. apply cstr_inv in Hc as (_ & tl & Hd).
  rewrite <- (Nat.add_0_r p). by apply (load_drop s p 0 _ _ Hd).
Qed.

(** C10: a numeric flag without '=' and value ("-rs", or "-ul" in a user
    program build) reaches [atoi] with a null [value]: the parser does not
    return, it ends in the undefined behaviour of the null dereference. *)
Theorem parse_options_numeric_flag_without_value
    cfg s (p : nat) (rest : list nat) (nm : string) :
  cstr (drop p (mem s)) = Some nm →
  nm = "-rs" ∨ (USERPROG cfg = true ∧ nm = "-ul") →
  parse_options cfg (p :: rest) s = Stop (Undefined "atoi: null pointer") s.
Proof.
  intros Hc Hnm.
  assert (Hload : load p s = Ret "-"%char s).
  { destruct Hnm as [->|[_ ->]]; by eapply load_marker. }
  destruct (cstr_inv _ _ Hc) as (Hnul & tl & Hd).
  simpl. unfold mbind at 1, M_bind at 1, bind at 1. rewrite Hload. simpl.
  unfold mbind, M_bind, bind.
  rewrite (parse_option_plain cfg s p nm tl Hd); [| |done|].
  - destruct Hnm as [->|[Hu ->]]; unfold option_effect; simpl;
      [|rewrite Hu]; by destruct (FILESYS cfg).
  - by destruct Hnm as [->|[_ ->]].
  - by destruct Hnm as [->|[_ ->]].
Qed.

Lemma seeds_snoc tr z : seeds (tr ++ [EvRandomInit z]) = seeds tr ++ [z].
Proof. unfold seeds. by rewrite omap_app. Qed.

Lemma recognized_inv cfg nm :
  recognized cfg nm = true →
  nm = "-q" ∨ (FILESYS cfg = true ∧ nm = "-f") ∨ nm = "-rs" ∨ nm = "-mlfqs" ∨
  (USERPROG cfg = true ∧ nm = "-ul") ∨
  (USERPROG cfg = true ∧ nm = "-threads-tests").
Proof.
  unfold recognized. rewrite !orb_true_iff, !andb_true_iff, !String.eqb_eq.
  tauto.
Qed.

Lemma set_flag_mem nm v s : mem (set_flag nm v s) = mem s.
Proof.
  unfold set_flag.
  repeat match goal with
         | |- context [String.eqb ?a ?b] => destruct (String.eqb a b)
         end; reflexivity.
Qed.

(** A vector that is empty or begins with a token without the flag marker
    is returned as it is. *)
Lemma parse_options_stops cfg rest s :
  at_action (mem s) rest → parse_options cfg rest s = Ret rest s.
Proof.
  destruct rest as [|q rest]; [done|]. intros (c & Hq & Hc). simpl.
  unfold mbind, M_bind, bind, load. rewrite Hq.
  destruct (Ascii.eqb_spec c "-"%char); done.
Qed.

Lemma at_action_insert m i rest :
  at_action m rest → at_action (<[i := NUL]> m) rest.
Proof.
  destruct rest as [|q rest]; [done|]. intros (c & Hq & Hc). simpl.
  destruct (decide (i = q)) as [->|Hne].
  - exists NUL. split; [|done]. apply list_lookup_insert_eq.
    by eapply lookup_lt_Some.
  - exists c. by rewrite list_lookup_insert_ne.
Qed.

(** C6: the worked example (power-off flag set, one seeding call with 1234,
    remainder "run" "a"), and the stop rule: the tokens consumed all begin
    with the flag marker, and the remainder is empty or begins with a token
    that does not. *)
Theorem parse_options_example_and_stop_rule :
  (∀ cfg (p : PT), ∃ s',
     parse_options cfg [0; 3; 12; 16] (boot_state options_window p)
     = Ret [12; 16] s' ∧
     configuration s'
     = {| powerOffWhenDone := true; formatFilesystemOnBoot := false;
          randomSeed := Some 1234%Z; multiLevelFeedbackQueue := false;
          userMemoryPageLimit := 0; selfTestMode := false |} ∧
     trace s' = [EvRandomInit 1234] ∧
     cstr (drop 12 (mem s')) = Some "run" ∧
     cstr (drop 16 (mem s')) = Some "a") ∧
  (∀ cfg argv s r s',
     parse_options cfg argv s = Ret r s' →
     ∃ opts, argv = opts ++ r ∧
             Forall (λ p, mem s !! p = Some "-"%char) opts ∧
             match r with
             | [] => True
             | p :: _ => mem s !! p ≠ Some "-"%char
             end).
Proof.
  split.
  - intros [[] [] []] p; eexists; by vm_compute.
  - apply parse_options_remainder.
Qed.

(** C4, as amended: [read_command_line] and [run_actions] leave every byte
    as it is, whatever their outcome; [parse_options] changes nothing but
    '=' bytes, which it overwrites with NUL. *)
Theorem boot_sequence_window_writes cfg L n argv s :
  mem (final (read_command_line L n s)) = mem s ∧
  mem (final (run_actions cfg argv s)) = mem s ∧
  split_only (mem s) (mem (final (parse_options cfg argv s))).
Proof.
  split; [apply mem_fixed_read_command_line|].
  split; [apply mem_fixed_run_actions|]. apply mem_split_parse_options.
Qed.
End ParseTheorems.

Lemma parse_options_example_and_stop_rule_witness :
  ∃ opts, [0; 3; 12; 16] = opts ++ [12; 16] ∧
          Forall (λ p, options_window !! p = Some "-"%char) opts.
Proof.
  destruct (proj2 (@parse_options_example_and_stop_rule unit)
              (Build true true false) [0; 3; 12; 16]
              (boot_state options_window tt) [12; 16]
              (final (parse_options (Build true true false) [0; 3; 12; 16]
                        (boot_state options_window tt))))
    as (opts & Happ & Hopts & _); [by vm_compute|].
  exists opts. split; [exact Happ | exact Hopts].
Defined.

Lemma parse_options_numeric_flag_without_value_witness :
  parse_options (Build true true false) [0; 4] (boot_state (pack ["-rs"; "run"]) tt)
  = Stop (Undefined "atoi: null pointer") (boot_state (pack ["-rs"; "run"]) tt).
Proof.
  apply (parse_options_numeric_flag_without_value (Build true true false)
           (boot_state (pack ["-rs"; "run"]) tt) 0 [4] "-rs");
    [by vm_compute | by left].
Defined.

(** C4, as stated, fails: the boot sequence puts a NUL over the '=' of
    "-rs=1234", byte 6 of the window the argument vector points into. *)
Lemma parse_options_writes_window :
  options_window !! 6 = Some "="%char ∧
  mem (final ((read_command_line 128 4 ≫= parse_options (Build true true false))
                (boot_state options_window tt))) !! 6 = Some NUL ∧
  mem (final ((read_command_line 128 4 ≫= parse_options (Build true true false))
                (boot_state options_window tt)))
  ≠ mem (boot_state options_window tt).
Proof. by vm_compute. Qed.


(** ** Address-space bootstrapper *)

Section PagingProofs.
Context {PT : Type} `{Mmu PT}.
Local Open Scope Z_scope.

Lemma aligned_land_flag k f :
  (∃ n, 0 ≤ n ≤ 64 ∧ PGSIZE = 2 ^ n) →
  0 ≤ f < PGSIZE → Z.land (k * PGSIZE) f = 0.
Proof.
  intros (n & Hn & Hpg). rewrite Hpg. intros Hf.
  rewrite <- (Z.mod_small f (2 ^ n)) by lia.
  rewrite <- (Z.land_ones f) by lia.
  rewrite (Z.land_comm f), Z.land_assoc, Z.land_ones by lia.
  by rewrite Z.mod_mul, Z.land_0_l by lia.
Qed.

Lemma entry_present pa va :
  Z.land PTE_P PTE_W = 0 →
  pte_present (Z.lor pa (perm_for va)) = true.
Proof.
  intros HPW.
  unfold pte_present, perm_for. apply Z.eqb_eq. apply Z.bits_inj'. intros i Hi.
  assert (Hd : Z.testbit PTE_P i && Z.testbit PTE_W i = false).
  { by rewrite <- Z.land_spec, HPW, Z.bits_0. }
  destruct (in_kernel_text va);
    rewrite ?Z.land_spec, ?Z.lor_spec, ?Z.land_spec, ?Z.lor_spec, ?Z.lnot_spec by lia;
    destruct (Z.testbit pa i), (Z.testbit PTE_P i), (Z.testbit PTE_W i);
    simpl in *; done.
Qed.

Lemma entry_writable k va :
  (∃ n, 0 ≤ n ≤ 64 ∧ PGSIZE = 2 ^ n) →
  0 < PTE_W < PGSIZE →
  pte_writable (Z.lor (k * PGSIZE) (perm_for va)) = negb (in_kernel_text va).
Proof.
  intros Hpow HW.
  unfold pte_writable, perm_for.
  destruct (in_kernel_text va); simpl.
  - apply Z.eqb_neq.
    replace (Z.land (Z.lor (k * PGSIZE)
               (Z.land (Z.lor PTE_P PTE_W) (Z.lnot PTE_W))) PTE_W)
      with (Z.land (k * PGSIZE) PTE_W); [rewrite (aligned_land_flag k PTE_W Hpow) by lia; lia|].
    apply Z.bits_inj'. intros i Hi.
    rewrite ?Z.land_spec, ?Z.lor_spec, ?Z.land_spec, ?Z.lor_spec, ?Z.lnot_spec by lia.
    destruct (Z.testbit (k * PGSIZE) i), (Z.testbit PTE_P i), (Z.testbit PTE_W i);
      done.
  - apply Z.eqb_eq. apply Z.bits_inj'. intros i Hi.
    rewrite ?Z.land_spec, ?Z.lor_spec, ?Z.lor_spec.
    destruct (Z.testbit (k * PGSIZE) i), (Z.testbit PTE_P i), (Z.testbit PTE_W i);
      done.
Qed.

Lemma below_pages mem_end k :
  0 < PGSIZE → (k * PGSIZE <? mem_end) = (k <? pages_below mem_end).
Proof.
  intros Hpg. unfold pages_below.
  assert (Hne : PGSIZE ≠ 0) by lia.
  pose proof (Z.div_mod (mem_end + PGSIZE - 1) PGSIZE Hne) as Hdm.
  pose proof (Z.mod_pos_bound (mem_end + PGSIZE - 1) PGSIZE Hpg) as Hmb.
  destruct (Z.ltb_spec (k * PGSIZE) mem_end), (Z.ltb_spec k ((mem_end + PGSIZE - 1) / PGSIZE));
    try done; nia.
Qed.

Lemma paging_loop_rounds fuel pml4 mem_end k s :
  0 < PGSIZE → 0 ≤ k → mem_end + PGSIZE ≤ 2 ^ 64 →
  (Z.to_nat (pages_below mem_end - k) ≤ fuel)%nat →
  paging_loop fuel pml4 mem_end (k * PGSIZE) s
  = Some (map_pages (Z.to_nat (pages_below mem_end - k)) pml4 k s).
Proof.
  intros Hpg Hk Hend. revert k s Hk.
  induction fuel as [|fuel IH]; intros k s Hk Hfuel; simpl;
    rewrite below_pages by done;
    destruct (Z.ltb_spec k (pages_below mem_end)) as [Hlt|Hge].
  - lia.
  - by replace (Z.to_nat (pages_below mem_end - k)) with O by lia.
  - assert (Hb : k * PGSIZE < mem_end).
    { apply Z.ltb_lt. rewrite below_pages by done. by apply Z.ltb_lt. }
    rewrite Z.mod_small by nia.
    replace (k * PGSIZE + PGSIZE) with ((k + 1) * PGSIZE) by lia.
    rewrite IH by lia.
    replace (Z.to_nat (pages_below mem_end - k))
      with (S (Z.to_nat (pages_below mem_end - (k + 1)))) by lia.
    done.
  - by replace (Z.to_nat (pages_below mem_end - k)) with O by lia.
Qed.

Lemma paging_loop_from_zero pml4 mem_end s :
  0 < PGSIZE → 0 ≤ mem_end → mem_end + PGSIZE ≤ 2 ^ 64 →
  paging_loop (paging_fuel mem_end) pml4 mem_end 0 s
  = Some (map_pages (Z.to_nat (pages_below mem_end)) pml4 0 s).
Proof.
  intros Hpg H0 Hend.
  pose proof (paging_loop_rounds (paging_fuel mem_end) pml4 mem_end 0 s Hpg
                ltac:(lia) Hend) as Hl.
  rewrite Z.mul_0_l, Z.sub_0_r in Hl. apply Hl.
  unfold paging_fuel, pages_below.
  apply Z2Nat.inj_le.
  - apply Z.div_pos; lia.
  - pose proof (Z.div_pos mem_end PGSIZE); lia.
  - replace (mem_end + PGSIZE - 1) with (mem_end - 1 + 1 * PGSIZE) by lia.
    rewrite Z.div_add by lia.
    pose proof (Z.div_le_mono (mem_end - 1) mem_end PGSIZE); lia.
Qed.

Lemma map_pages_app a b pml4 k s :
  map_pages (a + b) pml4 k s
  = map_pages b pml4 (k + Z.of_nat a) (map_pages a pml4 k s).
Proof.
  revert k s. induction a as [|a IH]; intros k s; simpl.
  - by rewrite Z.add_0_r.
  - rewrite IH. f_equal. lia.
Qed.

Section Contract.
Hypothesis Hspec : MmuSpec.

Lemma map_page_sets pml4 pa s p s1 :
  pml4e_walk s pml4 (ptov pa) true = (Some p, s1) →
  lookup (map_page pml4 pa s) pml4 (ptov pa) = Some p ∧
  load64 (map_page pml4 pa s) p = Z.lor pa (perm_for (ptov pa)).
Proof.
  intros Hw. unfold map_page. rewrite Hw.
  pose proof (walk_found Hspec _ _ _ _ _ Hw) as Hl. split.
  - by rewrite (lookup_store Hspec _ _ _ _ _ _ Hl).
  - apply (load_store_eq Hspec).
Qed.

Lemma map_page_keeps pml4 pa s va0 q :
  lookup s pml4 va0 = Some q →
  ptov pa / PGSIZE ≠ va0 / PGSIZE →
  lookup (map_page pml4 pa s) pml4 va0 = Some q ∧
  load64 (map_page pml4 pa s) q = load64 s q.
Proof.
  intros Hq Hne. unfold map_page.
  destruct (pml4e_walk s pml4 (ptov pa) true) as [[p|] s1] eqn:Hw;
    destruct (walk_frame Hspec _ _ _ _ _ _ _ Hw Hq) as [Hq1 Hl1]; [|done].
  pose proof (walk_found Hspec _ _ _ _ _ Hw) as Hp.
  assert (p ≠ q).
  { intros ->. apply Hne. by eapply (lookup_inj Hspec). }
  split.
  - by rewrite (lookup_store Hspec _ _ _ _ _ _ Hp).
  - by rewrite (load_store_ne Hspec).
Qed.

Lemma map_pages_keeps n pml4 k s va0 q :
  lookup s pml4 va0 = Some q →
  (∀ j, k ≤ j < k + Z.of_nat n → ptov (j * PGSIZE) / PGSIZE ≠ va0 / PGSIZE) →
  lookup (map_pages n pml4 k s) pml4 va0 = Some q ∧
  load64 (map_pages n pml4 k s) q = load64 s q.
Proof.
  revert k s. induction n as [|n IH]; intros k s Hq Hne; simpl; [done|].
  destruct (map_page_keeps pml4 (k * PGSIZE) s va0 q Hq) as [Hq1 Hl1].
  { apply Hne. lia. }
  destruct (IH (k + 1) _ Hq1) as [Hq2 Hl2].
  { intros j Hj. apply Hne. lia. }
  split; [done | congruence].
Qed.

Lemma ptov_page j :
  0 ≤ j * PGSIZE → 0 ≤ KERN_BASE → j * PGSIZE + KERN_BASE < 2 ^ 64 →
  ptov (j * PGSIZE) / PGSIZE = j + KERN_BASE / PGSIZE.
Proof.
  intros H0 Hkb Hlt. unfold ptov. rewrite Z.mod_small by lia.
  pose proof (pte_p_range Hspec).
  rewrite Z.add_comm, Z.div_add by lia. lia.
Qed.

Lemma pages_below_aligned k : 0 < PGSIZE → pages_below (k * PGSIZE) = k.
Proof.
  intros Hpg. unfold pages_below.
  replace (k * PGSIZE + PGSIZE - 1) with (PGSIZE - 1 + k * PGSIZE) by lia.
  rewrite Z.div_add, Z.div_small by lia. lia.
Qed.

(** C1, as amended: for a page-aligned physical address below memory top
    whose table walk yields a leaf entry, the table [paging_init] activates
    serves the virtual address by that entry, and the entry is the address
    with Present set and with Writable cleared exactly when the virtual
    address lies in the code range of the kernel. *)
Theorem paging_init_entry mem_end s r s0 k p sk sk' :
  0 ≤ KERN_BASE → 0 ≤ mem_end → mem_end + PGSIZE + KERN_BASE ≤ 2 ^ 64 →
  0 ≤ k → k * PGSIZE < mem_end →
  palloc_get_page (pts s) = (Some r, s0) →
  paging_loop (paging_fuel (k * PGSIZE)) r (k * PGSIZE) 0 s0 = Some sk →
  pml4e_walk sk r (ptov (k * PGSIZE)) true = (Some p, sk') →
  ∃ s', paging_init mem_end s = Ret tt s' ∧
        base_pml4 s' = r ∧
        lookup (pts s') r (ptov (k * PGSIZE)) = Some p ∧
        load64 (pts s') p = Z.lor (k * PGSIZE) (perm_for (ptov (k * PGSIZE))) ∧
        pte_present (load64 (pts s') p) = true ∧
        pte_writable (load64 (pts s') p)
        = negb (in_kernel_text (ptov (k * PGSIZE))).
Proof.
  intros Hkb Hend Hsum Hk Hlt Hpalloc Hsk Hwalk.
  pose proof (pte_p_range Hspec) as HP.
  assert (Hpg : 0 < PGSIZE) by lia.
  rewrite paging_loop_from_zero in Hsk by nia.
  rewrite pages_below_aligned in Hsk by done. injection Hsk as <-.
  set (N := pages_below mem_end).
  assert (HkN : k < N).
  { apply Z.ltb_lt. unfold N. rewrite <- below_pages by done. by apply Z.ltb_lt. }
  unfold paging_init. unfold_monad. rewrite Hpalloc.
  rewrite paging_loop_from_zero by lia. fold N.
  eexists. split; [reflexivity|]. simpl.
  split; [done|].
  replace (Z.to_nat N) with (Z.to_nat k + S (Z.to_nat (N - k - 1)))%nat by lia.
  rewrite map_pages_app, Z2Nat.id, Z.add_0_l by done. cbn [map_pages].
  set (sk := map_pages (Z.to_nat k) r 0 s0) in *.
  destruct (map_page_sets r (k * PGSIZE) sk p sk' Hwalk) as [Hl Hv].
  destruct (map_pages_keeps (Z.to_nat (N - k - 1)) r (k + 1) _ _ _ Hl) as [Hl' Hv'].
  { intros j Hj.
    assert (HjN : j * PGSIZE < mem_end).
    { apply Z.ltb_lt. rewrite below_pages by done. apply Z.ltb_lt. fold N. lia. }
    rewrite !ptov_page by nia. lia. }
  rewrite Hv' , Hv.
  split; [done|]. split; [done|]. split.
  - apply entry_present, (pte_p_w_disjoint Hspec).
  - apply entry_writable; [apply (pgsize_pow2 Hspec) | apply (pte_w_range Hspec)].
Qed.
End Contract.

(** C2, as amended: [paging_init] halts only when the root table cannot be
    allocated (inside the allocator's assertion).  When the root is there it
    runs every round and activates the table, whatever the walks return; a
    round whose walk yields no entry stores nothing and goes on. *)
Theorem paging_init_halts_only_without_root mem_end s :
  0 < PGSIZE → 0 ≤ mem_end → mem_end + PGSIZE ≤ 2 ^ 64 →
  (∀ s0, palloc_get_page (pts s) = (None, s0) →
         ∃ s', paging_init mem_end s = Stop (PanicExt "palloc_get_page") s') ∧
  (∀ r s0, palloc_get_page (pts s) = (Some r, s0) →
           ∃ s', paging_init mem_end s = Ret tt s' ∧
                 trace s' = trace s ++ paging_events ∧
                 pts s' = map_pages (Z.to_nat (pages_below mem_end)) r 0 s0) ∧
  (∀ r pa t t', pml4e_walk t r (ptov pa) true = (None, t') →
                map_page r pa t = t').
Proof.
  intros Hpg H0 Hend. split; [|split].
  - intros s0 Hp. unfold paging_init. unfold_monad. rewrite Hp. by eexists.
  - intros r s0 Hp. unfold paging_init. unfold_monad. rewrite Hp.
    rewrite paging_loop_from_zero by done.
    eexists. split; [reflexivity|]. simpl. split; [|done].
    by rewrite <- app_assoc.
  - intros r pa t t' Hw. unfold map_page. by rewrite Hw.
Qed.
End PagingProofs.

(** The one-level machine meets the contract. *)
Lemma flat_lookup s r va :
  lookup s r va
  = if decide ((va / 4096)%Z ∈ mapped s) then Some (flat_slot va) else None.
Proof. unfold lookup. simpl. unfold flat_walk. by destruct (decide _). Qed.

Lemma flat_mmu_spec : @MmuSpec flat_pt flat_mmu.
Proof.
  split.
  - exists 12%Z. split; [lia | reflexivity].
  - simpl. lia.
  - simpl. lia.
  - reflexivity.
  - intros s p v. simpl. by rewrite lookup_insert_eq.
  - intros s p q v Hne. simpl. by rewrite lookup_insert_ne.
  - intros s r va p v va' _. by rewrite !flat_lookup.
  - intros s r va p s'. rewrite flat_lookup. simpl. unfold flat_walk.
    destruct (decide (_ ∈ mapped s)) as [Hin|Hnin].
    + intros [= <- <-]. by rewrite decide_True.
    + destruct (free_pages s); [done|]. intros [= <- <-]. simpl.
      rewrite decide_True; [done | set_solver].
  - intros s r va o s' va' q. rewrite !flat_lookup. simpl. unfold flat_walk.
    destruct (decide ((va' / 4096)%Z ∈ mapped s)) as [Hin'|]; [|done].
    intros Hw [= <-].
    destruct (decide ((va / 4096)%Z ∈ mapped s)) as [Hin|Hnin].
    + injection Hw as <- <-. by rewrite decide_True.
    + destruct (free_pages s); [injection Hw as <- <-; by rewrite decide_True|].
      injection Hw as <- <-. simpl. split.
      * rewrite decide_True; [done | set_solver].
      * rewrite lookup_insert_ne; [done|]. unfold flat_slot.
        intros Heq. apply Hnin. replace (va / 4096)%Z with (va' / 4096)%Z by lia.
        done.
  - intros s r va va' p. rewrite !flat_lookup. simpl.
    destruct (decide _); [|done]. destruct (decide _); [|done].
    unfold flat_slot. intros [= <-] [= Heq]. lia.
Qed.


Lemma paging_init_entry_witness :
  ∃ s', paging_init 0x4000 (boot_state [] (flat_init 8)) = Ret tt s' ∧
        load64 (pts s') (flat_slot (ptov 0x1000)) = 0x1001%Z ∧
        pte_writable (load64 (pts s') (flat_slot (ptov 0x1000))) = false.
Proof.
  edestruct (paging_init_entry flat_mmu_spec 0x4000
               (boot_state [] (flat_init 8)) 0x100000 (flat_init 7) 1)
    as (s' & Hinit & _ & _ & Hload & _ & Hw);
    [by vm_compute | by vm_compute | by vm_compute | by vm_compute
    | by vm_compute | reflexivity | vm_compute; reflexivity
    | vm_compute; reflexivity |].
  exists s'. split; [exact Hinit|]. split; [exact Hload | exact Hw].
Defined.

(** The whole table of the small machine with four pages of memory: the two
    code pages are present and read-only, the other two present and
    writable. *)
Lemma paging_init_four_pages :
  ∃ s', paging_init 0x4000 (boot_state [] (flat_init 8)) = Ret tt s' ∧
        map (λ pa, load64 (pts s') (flat_slot (ptov pa)))
            [0; 0x1000; 0x2000; 0x3000]%Z
        = [0x0003; 0x1001; 0x2001; 0x3003]%Z.
Proof. eexists. by vm_compute. Qed.

(** C1, as stated, fails: with a pool of two pages the root and the entry of
    page 0 exhaust it, the walk for the page at 0x1000 yields nothing, and
    the table that is activated has no entry for that address. *)
Lemma paging_init_leaves_page_unmapped :
  ∃ s', paging_init 0x2000 (boot_state [] (flat_init 2)) = Ret tt s' ∧
        (0x1000 < 0x2000)%Z ∧
        lookup (pts s') (base_pml4 s') (ptov 0x1000) = None ∧
        pte_present (load64 (pts s') (flat_slot (ptov 0x1000))) = false.
Proof. eexists. by vm_compute. Qed.

(** C2, as stated, fails: with a pool of one page the walk for the first
    address yields no entry, and [paging_init] does not halt: it returns
    after activating the table. *)
Lemma paging_init_continues_after_failed_walk :
  pml4e_walk (flat_init 0) 0x100000 (ptov 0) true = (None, flat_init 0) ∧
  ∃ s', paging_init 0x3000 (boot_state [] (flat_init 1)) = Ret tt s' ∧
        trace s' = paging_events.
Proof. split; [by vm_compute | eexists; by vm_compute]. Qed.

Lemma paging_init_halts_only_without_root_witness :
  ∃ s', paging_init 0x3000 (boot_state [] (flat_init 0))
        = Stop (PanicExt "palloc_get_page") s'.
Proof.
  destruct (paging_init_halts_only_without_root 0x3000
              (boot_state [] (flat_init 0)))
    as (Hnone & _); [by vm_compute | by vm_compute | by vm_compute |].
  apply (Hnone (flat_init 0)). reflexivity.
Defined.

(** ** The order of the boot sequence *)

Create HintDb emits.

Section Order.
Context {PT : Type}.
Implicit Types (s : kstate PT) (P : event → Prop).

Lemma emits_bind P {A B} (m : M PT A) (k : A → M PT B) :
  emits P m → (∀ a, emits P (k a)) → emits P (m ≫= k).
Proof.
  intros Hm Hk s. unfold mbind, M_bind, bind.
  destruct (Hm s) as (post1 & E1 & F1).
  destruct (m s) as [a s1|h s1]; simpl in *.
  - destruct (Hk a s1) as (post2 & E2 & F2).
    exists (post1 ++ post2). rewrite E2, E1, app_assoc. split; [done|].
    by apply Forall_app.
  - by exists post1.
Qed.

Lemma emits_quiet P {A} (m : M PT A) :
  (∀ s, trace (final (m s)) = trace s) → emits P m.
Proof. intros Hm s. exists []. by rewrite Hm, app_nil_r. Qed.

Lemma emits_ret P {A} (a : A) : emits P (mret a : M PT A).
Proof. by apply emits_quiet. Qed.
Lemma emits_stop P {A} h : emits P (stop h : M PT A).
Proof. by apply emits_quiet. Qed.
Lemma emits_PANIC P {A} msg : emits P (PANIC msg : M PT A).
Proof. by apply emits_quiet. Qed.
Lemma emits_get P : emits P (get : M PT _).
Proof. by apply emits_quiet. Qed.
Lemma emits_printf P t : emits P (printf t : M PT unit).
Proof. by apply emits_quiet. Qed.
Lemma emits_cstring P p : emits P (cstring p : M PT string).
Proof. apply emits_quiet. intros s. unfold cstring. by destruct (cstr _). Qed.
Lemma emits_load P p : emits P (load p : M PT ascii).
Proof. apply emits_quiet. intros s. unfold load. by destruct (_ !! _). Qed.
Lemma emits_store P p c : emits P (store p c : M PT unit).
Proof. apply emits_quiet. intros s. unfold store. by destruct (decide _). Qed.
Lemma emits_strnlen P p n : emits P (strnlen p n : M PT nat).
Proof.
  apply emits_quiet. intros s. unfold strnlen. by destruct (strnlen_list _ _).
Qed.
Lemma emits_emit P e : P e → emits P (emit e : M PT unit).
Proof. intros He s. exists [e]. split; [done|]. by constructor. Qed.
Lemma emits_call P fn : P (EvCall fn) → emits P (call fn : M PT unit).
Proof. apply emits_emit. Qed.
Lemma emits_when P b (m : M PT unit) : emits P m → emits P (when b m).
Proof. destruct b; [done|]. intros _. apply emits_ret. Qed.

#[local] Hint Resolve emits_ret emits_stop emits_PANIC emits_get emits_printf
  emits_cstring emits_load emits_store emits_strnlen : emits.

Ltac emits_tac :=
  repeat first
    [ progress intros
    | apply emits_bind
    | apply emits_when
    | solve [eauto with emits]
    | apply emits_emit; done
    | match goal with
      | |- emits _ (if ?b then _ else _) => destruct b
      | |- emits _ (match ?o with _ => _ end) => destruct o
      | |- emits _ (modify _) => by apply emits_quiet
      end ].

Lemma emits_power_off cfg {A} : emits calm (power_off cfg : M PT A).
Proof. unfold power_off, print_stats. emits_tac. Qed.

Lemma emits_strtok_r P sp d sv : emits P (strtok_r sp d sv : M PT _).
Proof.
  unfold strtok_r. destruct (match sp with Some p => Some p | None => sv end);
    [|emits_tac].
  apply emits_bind; [by apply emits_quiet|]. intros m. emits_tac.
Qed.

Lemma emits_parse_options cfg argv : emits calm (parse_options cfg argv : M PT _).
Proof.
  induction argv as [|p argv IH]; simpl; [emits_tac|].
  apply emits_bind; [emits_tac|]. intros c.
  destruct (Ascii.eqb c "-"); [|emits_tac].
  apply emits_bind; [|by intros _].
  unfold parse_option.
  apply emits_bind; [apply emits_strtok_r|]. intros [name sv].
  apply emits_bind; [apply emits_strtok_r|]. intros [value sv'].
  pose proof (@emits_power_off cfg unit).
  unfold usage, atoi. emits_tac.
Qed.

Lemma emits_read_command_line L n :
  emits calm (read_command_line L n : M PT _).
Proof.
  assert (Hargs : ∀ k i p argv, emits calm (read_args L k i p argv : M PT _)).
  { induction k as [|k IH]; intros i p argv; simpl; emits_tac. }
  assert (Hecho : ∀ argv, emits calm (echo_args argv : M PT _)).
  { induction argv as [|p argv IH]; simpl; emits_tac. }
  unfold read_command_line. emits_tac.
Qed.

Lemma emits_run_actions cfg argv : emits calm (run_actions cfg argv : M PT _).
Proof.
  unfold run_actions. generalize (length argv) as fuel. intros fuel.
  revert argv. induction fuel as [|fuel IH]; intros [|p argv]; simpl;
    try by emits_tac.
  apply emits_bind; [emits_tac|]. intros tok.
  destruct (find_action cfg tok) as [a|] eqn:Ha; [|emits_tac].
  apply emits_bind; [|intros _; apply emits_bind; [|intros _; apply IH]].
  - assert (Hc : ∀ n i, emits calm (check_args tok a (p :: argv) n i : M PT _)).
    { induction n as [|n IHn]; intros i; simpl; emits_tac. }
    apply Hc.
  - unfold find_action in Ha. apply find_some in Ha as [Hin _].
    unfold actions in Hin.
    assert (Hrt : emits calm (run_task cfg (p :: argv) : M PT _)).
    { unfold run_task. emits_tac. }
    destruct (FILESYS cfg); simpl in Hin;
      repeat (destruct Hin as [<-|Hin];
              [first [exact Hrt | simpl; unfold fsutil; emits_tac]|]);
      done.
Qed.

Context `{Mmu PT}.
Local Open Scope Z_scope.

Lemma paging_init_returns mem_end s r (t0 : PT) :
  0 < PGSIZE → 0 ≤ mem_end → mem_end + PGSIZE ≤ 2 ^ 64 →
  palloc_get_page (pts s) = (Some r, t0) →
  ∃ s', paging_init mem_end s = Ret tt s' ∧
        trace s' = trace s ++ paging_events ∧
        format_filesys s' = format_filesys s ∧
        pts s' = map_pages (Z.to_nat (pages_below mem_end)) r 0 t0.
Proof.
  intros Hpg H0 Hend Hp. unfold paging_init. unfold_monad. rewrite Hp.
  rewrite paging_loop_from_zero by done.
  eexists. split; [reflexivity|]. simpl. split; [|done].
  by rewrite <- app_assoc.
Qed.

Lemma bind_Ret {A B} (m : M PT A) (k : A → M PT B) s a s' :
  m s = Ret a s' → (m ≫= k) s = k a s'.
Proof. intros Hm. unfold mbind, M_bind, bind. by rewrite Hm. Qed.

Lemma bind_assoc_at {A B C} (m : M PT A) (f : A → M PT B) (g : B → M PT C) s :
  ((m ≫= f) ≫= g) s = (m ≫= λ a, f a ≫= g) s.
Proof. unfold mbind, M_bind, bind. by destruct (m s). Qed.

Lemma call_first {B} fn (k : unit → M PT B) s :
  (call fn ≫= k) s = k tt (set_trace (trace s ++ [EvCall fn]) s).
Proof. reflexivity. Qed.

Lemma call_next {B} fn (k : unit → M PT B) t s :
  (call fn ≫= k) (set_trace t s) = k tt (set_trace (t ++ [EvCall fn]) s).
Proof. reflexivity. Qed.

Lemma filesys_init_next {B} (k : unit → M PT B) t s :
  ((get ≫= λ s0, emit (EvFilesysInit (format_filesys s0))) ≫= k) (set_trace t s)
  = k tt (set_trace (t ++ [EvFilesysInit (format_filesys s)]) s).
Proof. reflexivity. Qed.

Lemma ret_next {B} (k : unit → M PT B) s : (mret tt ≫= k) s = k tt s.
Proof. reflexivity. Qed.

Lemma printf_next {B} text (k : unit → M PT B) s :
  (printf text ≫= k) s = k tt (set_console (console s ++ [text]) s).
Proof. reflexivity. Qed.

(** C5, as amended: in a run of [main] whose option phase returns and whose
    root table can be allocated, the start-up calls [thread_init],
    [console_init], [palloc_init] and [malloc_init] come first, then the
    root allocation and the activation of [paging_init], then every other
    start-up call; nothing before or after that stretch is a start-up
    call or a page allocation. *)
Theorem main_startup_order cfg L n MEM_END s argv s1 r p0 :
  0 < PGSIZE → 0 ≤ MEM_END → MEM_END + PGSIZE ≤ 2 ^ 64 →
  (bss_init ≫= λ _, read_command_line L n ≫= parse_options cfg) s
  = Ret argv s1 →
  palloc_get_page (pts s1) = (Some r, p0) →
  ∃ pre post,
    trace (final (main cfg L n MEM_END s))
    = trace s ++ pre ++ startup_before_paging ++ paging_events ++
      startup_after_paging cfg (format_filesys s1) ++ post ∧
    Forall calm pre ∧ Forall calm post.
Proof.
  intros Hpg H0 Hend Hopt Hpalloc.
  assert (Hpre : emits calm
            (bss_init ≫= λ _, read_command_line L n ≫= parse_options cfg
             : M PT _)).
  { apply emits_bind; [unfold bss_init; emits_tac|]. intros _.
    apply emits_bind; [apply emits_read_command_line|]. intros a.
    apply emits_parse_options. }
  destruct (Hpre s) as (pre & Epre & Fpre). rewrite Hopt in Epre. simpl in Epre.
  exists pre.
  unfold main.
  unfold mbind at 1, M_bind at 1, bind at 1.
  unfold mbind at 1, M_bind at 1, bind at 1 in Hopt.
  destruct (bss_init s) as [[] sb|hb sb]; [|done].
  unfold mbind at 1, M_bind at 1, bind at 1.
  unfold mbind at 1, M_bind at 1, bind at 1 in Hopt.
  destruct (read_command_line L n sb) as [av sr|hr sr]; [|done].
  unfold mbind at 1, M_bind at 1, bind at 1. rewrite Hopt.
  match goal with
  | |- context [printf ?t ≫= ?k] => set (finish := k)
  end.
  assert (Hfinish : emits calm (finish tt)).
  { unfold finish. pose proof (@emits_power_off cfg unit).
    apply emits_bind; [apply emits_run_actions|]. intros _. emits_tac. }
  clearbody finish.
  rewrite call_first, !call_next.
  match goal with
  | |- context [(paging_init MEM_END ≫= ?k) ?t] =>
      destruct (paging_init_returns MEM_END t r p0 Hpg H0 Hend Hpalloc)
        as (s2 & E2 & T2 & F2 & _);
      rewrite (bind_Ret _ k t tt s2 E2)
  end.
  simpl in T2, F2. rewrite <- F2.
  unfold startup_after_paging, startup_before_paging.
  destruct (USERPROG cfg), (FILESYS cfg), (VM cfg); unfold when;
    rewrite ?bind_assoc_at, ?ret_next; rewrite call_first;
    repeat first [ rewrite filesys_init_next | rewrite call_next
                 | rewrite ret_next | rewrite bind_assoc_at ];
    rewrite printf_next;
    match goal with
    | |- context [finish tt ?t] => destruct (Hfinish t) as (post & E & Fpost)
    end;
    exists post; (split; [|done]);
    rewrite E; simpl; rewrite T2, Epre; rewrite <- !app_assoc; reflexivity.
Qed.
End Order.

Lemma main_startup_order_witness :
  ∃ pre post,
    trace (final (main (Build true true false) 128 4 0x4000
                    (boot_state options_window (flat_init 8))))
    = pre ++ startup_before_paging ++ paging_events ++
      startup_after_paging (Build true true false) false ++ post.
Proof.
  edestruct (main_startup_order (Build true true false) 128 4 0x4000
               (boot_state options_window (flat_init 8)))
    as (pre & post & E & _);
    [by vm_compute | by vm_compute | by vm_compute
    | vm_compute; reflexivity | vm_compute; reflexivity |].
  exists pre, post. exact E.
Defined.

(** C5, as stated, fails: in the run of the small machine [thread_init] is
    the event at index 1 and the activation of [paging_init] the event at
    index 6. *)
Lemma main_starts_subsystems_before_paging :
  ¬ paging_first
      (trace (final (main (Build true true false) 128 4 0x4000
                       (boot_state options_window (flat_init 8))))).
Proof.
  intros Hp.
  specialize (Hp 1%nat 6%nat (EvCall "thread_init")).
  assert (6 < 1)%nat; [|lia].
  apply Hp; by vm_compute.
Qed.

(** * Further properties *)

(** ** Option tokens *)

Section OptionTokens.
Context {PT : Type}.
Implicit Types (s : kstate PT) (tok nm v : string).

Lemma option_name_free tok : strchr (option_name tok) "="%char = false.
Proof.
  induction tok as [|c tok IH]; simpl; [done|].
  destruct (Ascii.eqb c "="%char) eqn:Hc; simpl; [done|]. by rewrite Hc, IH.
Qed.

Lemma option_token_split tok :
  match option_value tok with
  | Some v => tok = option_name tok +:+ "=" +:+ v
  | None => tok = option_name tok
  end.
Proof.
  induction tok as [|c tok IH]; simpl; [done|].
  destruct (Ascii.eqb c "="%char) eqn:Hc; simpl.
  - apply Ascii.eqb_eq in Hc as ->. done.
  - destruct (option_value tok); [|by f_equal].
    change (String c tok = String c (option_name tok +:+ "=" +:+ s)).
    by f_equal.
Qed.

Lemma nul_free_app a b :
  strchr (a +:+ b) NUL = false → strchr a NUL = false ∧ strchr b NUL = false.
Proof. rewrite strchr_app. apply orb_false_elim. Qed.

(** The loop body on any token that begins with the flag marker: the
    dispatch on the split token, in the state the split leaves. *)
Lemma parse_option_token cfg s p tok r :
  cstr (drop p (mem s)) = Some tok → tok = String "-"%char r →
  parse_option cfg p s
  = option_effect cfg (option_name tok) (value_arg tok) (split_state p tok s).
Proof.
  intros Hc Hr.
  destruct (cstr_inv _ _ Hc) as (Hnul & tl & Hd).
  pose proof (option_token_split tok) as Hsplit.
  pose proof (option_name_free tok) as Hfree.
  assert (Hne : option_name tok ≠ EmptyString) by (by rewrite Hr).
  unfold value_arg, split_state.
  destruct (option_value tok) as [v|].
  - rewrite Hsplit in Hnul, Hd.
    apply nul_free_app in Hnul as [Hn1 Hn2].
    apply nul_free_app in Hn2 as [_ Hn2].
    rewrite !list_ascii_app, <- !app_assoc in Hd. simpl in Hd.
    rewrite (parse_option_valued cfg s p _ v tl Hd) by done.
    by destruct v.
  - rewrite Hsplit in Hnul, Hd.
    by rewrite (parse_option_plain cfg s p _ tl Hd).
Qed.

Lemma parse_options_cons_token cfg s p rest tok r :
  cstr (drop p (mem s)) = Some tok → tok = String "-"%char r →
  parse_options cfg (p :: rest) s
  = (option_effect cfg (option_name tok) (value_arg tok)
     ≫= λ _, parse_options cfg rest) (split_state p tok s).
Proof.
  intros Hc Hr. simpl. unfold mbind at 1, M_bind at 1, bind at 1.
  rewrite (load_marker s p r) by (by rewrite <- Hr).
  simpl. unfold mbind, M_bind, bind.
  by rewrite (parse_option_token cfg s p tok r).
Qed.
End OptionTokens.

(** ** Repeated options *)

Section LastWins.
Context {PT : Type}.
Implicit Types (s a b : kstate PT) (toks pre mid post : list (nat * string)).

Lemma option_effect_returns cfg nm val s :
  recognized cfg nm = true →
  negb (numeric_option nm) || bool_decide (is_Some val) = true →
  option_effect cfg nm val s
  = Ret tt (set_flag nm (default EmptyString val) s).
Proof.
  intros Hrec Hval. apply recognized_inv in Hrec.
  destruct cfg as [[] [] vm]; simpl in Hrec;
    destruct Hrec as [->|[[? ->]|[->|[->|[[? ->]|[? ->]]]]]];
    try done; destruct val as [v|]; done.
Qed.

Lemma returns_to_parser_inv cfg tok :
  returns_to_parser cfg tok = true →
  (∃ r, tok = String "-"%char r) ∧ recognized cfg (option_name tok) = true ∧
  negb (numeric_option (option_name tok))
  || bool_decide (is_Some (value_arg tok)) = true.
Proof.
  unfold returns_to_parser. rewrite !andb_true_iff. intros [[Hm Hr] Hv].
  split; [|done]. destruct tok as [|c r]; [done|].
  apply Ascii.eqb_eq in Hm as ->. by exists r.
Qed.

Lemma apply_token_mem pt s :
  mem (apply_token pt s) = mem s ∨
  mem (apply_token pt s)
  = <[pt.1 + String.length (option_name pt.2) := NUL]> (mem s).
Proof.
  unfold apply_token, split_state. rewrite set_flag_mem.
  destruct (option_value pt.2); [by right | by left].
Qed.

Lemma tokens_at_insert m i c toks :
  tokens_at m toks → Forall (λ qt, i < qt.1) toks →
  tokens_at (<[i := c]> m) toks.
Proof.
  induction toks as [|[q tok] r IH]; simpl; [done|].
  intros (Hc & Hord & Hr) Hi. apply Forall_cons in Hi as [Hq Hi].
  simpl in Hq. split; [by rewrite drop_insert_lt|]. split; [done|]. by apply IH.
Qed.

Lemma tokens_at_app_r m l1 l2 : tokens_at m (l1 ++ l2) → tokens_at m l2.
Proof.
  induction l1 as [|[q tok] r IH]; simpl; [done|]. intros (_ & _ & Hr).
  by apply IH.
Qed.

Lemma tokens_at_remove m l1 x l2 :
  tokens_at m (l1 ++ x :: l2) → tokens_at m (l1 ++ l2).
Proof.
  induction l1 as [|[q tok] r IH]; simpl.
  - by destruct x as [q tok]; intros (_ & _ & Hr).
  - intros (Hc & Hord & Hr). split; [done|]. split; [|by apply IH].
    apply Forall_app in Hord as [H1 H2]. apply Forall_cons in H2 as [_ H2].
    by apply Forall_app.
Qed.

(** The parser on a vector that begins with the options [toks]: it applies
    them one after the other and goes on with what follows them. *)
Lemma parse_options_tokens cfg toks :
  ∀ s tail,
    Forall (λ pt, returns_to_parser cfg pt.2 = true) toks →
    tokens_at (mem s) toks →
    parse_options cfg (toks.*1 ++ tail) s
    = parse_options cfg tail (apply_tokens toks s).
Proof.
  induction toks as [|[p tok] r IH]; intros s tail Hret Hat; [done|].
  apply Forall_cons in Hret as [Hp Hret]. simpl in Hp.
  destruct (returns_to_parser_inv cfg tok Hp) as ([r0 Hr0] & Hrec & Hval).
  destruct Hat as (Hc & Hord & Hat).
  cbn [fmap list_fmap app fst apply_tokens].
  change ((p, tok).1 :: r.*1 ++ tail) with (p :: (r.*1 ++ tail)).
  rewrite (parse_options_cons_token cfg s p (r.*1 ++ tail) tok r0 Hc Hr0).
  unfold mbind, M_bind, bind.
  rewrite (option_effect_returns cfg _ _ _ Hrec Hval).
  change (set_flag (option_name tok) (default EmptyString (value_arg tok))
            (split_state p tok s)) with (apply_token (p, tok) s).
  apply IH; [done|].
  destruct (apply_token_mem (p, tok) s) as [->| ->]; [done|].
  by apply tokens_at_insert.
Qed.

Lemma at_action_apply_tokens toks :
  ∀ s rest, at_action (mem s) rest → at_action (mem (apply_tokens toks s)) rest.
Proof.
  induction toks as [|pt r IH]; intros s rest Hrest; [done|]. simpl.
  apply IH. destruct (apply_token_mem pt s) as [->| ->]; [done|].
  by apply at_action_insert.
Qed.

Lemma apply_tokens_app l1 l2 s :
  apply_tokens (l1 ++ l2) s = apply_tokens l2 (apply_tokens l1 s).
Proof. revert s. induction l1 as [|pt r IH]; intros s; [done|]. apply IH. Qed.

Lemma apply_token_trace pt s :
  trace (apply_token pt s)
  = if String.eqb (option_name pt.2) "-rs"
    then trace s ++ [EvRandomInit (atoi_text (default EmptyString (value_arg pt.2)))]
    else trace s.
Proof.
  unfold apply_token, set_flag, split_state.
  destruct (option_value pt.2);
    repeat match goal with
           | |- context [String.eqb ?a ?b] => destruct (String.eqb_spec a b)
           end; try reflexivity; congruence.
Qed.

Lemma apply_tokens_seeds toks :
  ∀ s, seeds (trace (apply_tokens toks s)) = seeds (trace s) ++ token_seeds toks.
Proof.
  induction toks as [|pt r IH]; intros s; simpl.
  - by rewrite app_nil_r.
  - rewrite IH, apply_token_trace. unfold token_seeds. simpl.
    destruct (String.eqb (option_name pt.2) "-rs"); [|done].
    by rewrite seeds_snoc, <- app_assoc.
Qed.

Ltac flag_cases :=
  unfold apply_token, set_flag, split_state;
  repeat match goal with
         | |- context [option_value ?t] => destruct (option_value t)
         | |- context [String.eqb ?a ?b] =>
             destruct (String.eqb_spec a b); try congruence
         end.

(** An option leaves the settings of the other options as they are. *)
Lemma apply_token_other pt s :
  agree_but (option_name pt.2) (apply_token pt s) s.
Proof.
  unfold agree_but.
  repeat split; intros Hne; flag_cases; try reflexivity; try congruence.
Qed.

Lemma agree_but_step nm pt a b :
  agree_but nm a b → agree_but nm (apply_token pt a) (apply_token pt b).
Proof.
  unfold agree_but. intros (Hq & Hf & Hm & Ht & Hu & Hs).
  rewrite !apply_token_trace.
  repeat split; intros Hne; flag_cases; simpl;
    rewrite ?seeds_snoc, ?last_snoc; auto.
Qed.

Lemma agree_but_steps nm toks :
  ∀ a b, agree_but nm a b →
         agree_but nm (apply_tokens toks a) (apply_tokens toks b).
Proof.
  induction toks as [|pt r IH]; intros a b Hab; [done|]. simpl.
  by apply IH, agree_but_step.
Qed.

(** An occurrence of the option that differs closes the difference. *)
Lemma agree_but_closed cfg nm pt a b :
  option_name pt.2 = nm → recognized cfg nm = true →
  agree_but nm a b →
  configuration (apply_token pt a) = configuration (apply_token pt b).
Proof.
  intros Hn Hrec (Hq & Hf & Hm & Ht & Hu & Hs).
  apply recognized_inv in Hrec.
  unfold configuration. rewrite !apply_token_trace, Hn.
  destruct Hrec as [->|[[_ ->]|[->|[->|[[_ ->]|[_ ->]]]]]];
    unfold apply_token, set_flag, split_state; rewrite Hn;
    destruct (option_value pt.2); simpl;
    rewrite ?seeds_snoc, ?last_snoc;
    rewrite ?Hq, ?Hf, ?Hm, ?Ht, ?Hu, ?Hs by done; reflexivity.
Qed.

Lemma configuration_step pt a b :
  configuration a = configuration b →
  configuration (apply_token pt a) = configuration (apply_token pt b).
Proof.
  unfold configuration. intros [= Hq Hf Hs Hm Hu Ht].
  rewrite !apply_token_trace.
  flag_cases; simpl; rewrite ?seeds_snoc, ?last_snoc; congruence.
Qed.

Lemma configuration_steps toks :
  ∀ a b, configuration a = configuration b →
         configuration (apply_tokens toks a) = configuration (apply_tokens toks b).
Proof.
  induction toks as [|pt r IH]; intros a b Hab; [done|]. simpl.
  by apply IH, configuration_step.
Qed.

(** What the last occurrence of an option sets stays until the end. *)
Lemma apply_tokens_keep nm post :
  Forall (λ pt, option_name pt.2 ≠ nm) post →
  ∀ s,
    (nm = "-q" → power_off_when_done (apply_tokens post s) = power_off_when_done s) ∧
    (nm = "-f" → format_filesys (apply_tokens post s) = format_filesys s) ∧
    (nm = "-mlfqs" → thread_mlfqs (apply_tokens post s) = thread_mlfqs s) ∧
    (nm = "-threads-tests" → thread_tests (apply_tokens post s) = thread_tests s) ∧
    (nm = "-ul" → user_page_limit (apply_tokens post s) = user_page_limit s) ∧
    (nm = "-rs" → seeds (trace (apply_tokens post s)) = seeds (trace s)).
Proof.
  induction 1 as [|pt r Hne _ IH]; intros s; [done|]. simpl.
  destruct (IH (apply_token pt s)) as (Hq & Hf & Hm & Ht & Hu & Hs).
  repeat split; intros ->;
    [rewrite Hq|rewrite Hf|rewrite Hm|rewrite Ht|rewrite Hu|rewrite Hs]; try done;
    rewrite ?apply_token_trace; flag_cases; reflexivity.
Qed.

(** C9: in a vector that begins with options, all of which return to the
    parser, let the option [nm] occur at [p1] and again at [p2], with
    whatever values, any other options before, between and behind them,
    and let the occurrence at [p2] be the last one.  Then the parser
    returns what follows the options; the configuration is the one that
    results without the occurrence at [p1]; the seeding calls have been
    made in the order of the tokens; and the setting of the option is the
    one the last occurrence asks for: the flag is set, the seed and the
    page limit are the numbers of the value at [p2]. *)
Theorem parse_options_last_wins cfg s toks pre mid post
    (p1 p2 : nat) (t1 t2 : string) (rest : list nat) (nm : string) :
  toks = pre ++ (p1, t1) :: mid ++ (p2, t2) :: post →
  option_name t1 = nm → option_name t2 = nm →
  Forall (λ pt, option_name pt.2 ≠ nm) post →
  Forall (λ pt, returns_to_parser cfg pt.2 = true) toks →
  tokens_at (mem s) toks →
  at_action (mem s) rest →
  ∃ s' s0,
    parse_options cfg (toks.*1 ++ rest) s = Ret rest s' ∧
    parse_options cfg ((pre ++ mid ++ (p2, t2) :: post).*1 ++ rest) s
    = Ret rest s0 ∧
    configuration s' = configuration s0 ∧
    seeds (trace s') = seeds (trace s) ++ token_seeds toks ∧
    (nm = "-q" → powerOffWhenDone (configuration s') = true) ∧
    (nm = "-f" → formatFilesystemOnBoot (configuration s') = true) ∧
    (nm = "-mlfqs" → multiLevelFeedbackQueue (configuration s') = true) ∧
    (nm = "-threads-tests" → selfTestMode (configuration s') = true) ∧
    (∀ v, value_arg t2 = Some v →
          (nm = "-rs" → randomSeed (configuration s') = Some (atoi_text v)) ∧
          (nm = "-ul" → userMemoryPageLimit (configuration s') = atoi_text v)).
Proof.
  intros Htoks Hn1 Hn2 Hpost Hret Hat Hrest.
  assert (Hret0 : Forall (λ pt, returns_to_parser cfg pt.2 = true)
                    (pre ++ mid ++ (p2, t2) :: post)).
  { rewrite Htoks in Hret. apply Forall_app in Hret as [H1 H2].
    apply Forall_cons in H2 as [_ H2]. by apply Forall_app. }
  assert (Hat0 : tokens_at (mem s) (pre ++ mid ++ (p2, t2) :: post)).
  { rewrite Htoks in Hat. by eapply tokens_at_remove. }
  assert (Hrec : recognized cfg nm = true).
  { rewrite Htoks in Hret. apply Forall_app in Hret as [_ H2].
    apply Forall_cons in H2 as [H2 _]. simpl in H2.
    apply returns_to_parser_inv in H2 as (_ & H2 & _). by rewrite <- Hn1. }
  exists (apply_tokens toks s), (apply_tokens (pre ++ mid ++ (p2, t2) :: post) s).
  split.
  { rewrite (parse_options_tokens cfg toks s rest Hret Hat).
    by apply parse_options_stops, at_action_apply_tokens. }
  split.
  { rewrite (parse_options_tokens cfg _ s rest Hret0 Hat0).
    by apply parse_options_stops, at_action_apply_tokens. }
  split.
  { rewrite Htoks, !apply_tokens_app.
    change ((p1, t1) :: mid ++ (p2, t2) :: post)
      with ([(p1, t1)] ++ mid ++ (p2, t2) :: post).
    rewrite !apply_tokens_app.
    change ((p2, t2) :: post) with ([(p2, t2)] ++ post).
    rewrite !apply_tokens_app.
    apply configuration_steps. simpl.
    apply (agree_but_closed cfg nm); [done|done|].
    apply agree_but_steps. simpl.
    rewrite <- Hn1. exact (apply_token_other (p1, t1) (apply_tokens pre s)). }
  split; [apply apply_tokens_seeds|].
  assert (Hlast : apply_tokens toks s
                  = apply_tokens post
                      (apply_token (p2, t2)
                         (apply_tokens (pre ++ (p1, t1) :: mid) s))).
  { rewrite Htoks.
    replace (pre ++ (p1, t1) :: mid ++ (p2, t2) :: post)
      with ((pre ++ (p1, t1) :: mid) ++ [(p2, t2)] ++ post)
      by (by rewrite <- app_assoc).
    by rewrite !apply_tokens_app. }
  destruct (apply_tokens_keep nm post Hpost
              (apply_token (p2, t2) (apply_tokens (pre ++ (p1, t1) :: mid) s)))
    as (Hq & Hf & Hm & Ht & Hu & Hs).
  unfold configuration. cbn [powerOffWhenDone formatFilesystemOnBoot
    multiLevelFeedbackQueue selfTestMode randomSeed userMemoryPageLimit].
  rewrite Hlast.
  split; [intros E; rewrite (Hq E); unfold apply_token; simpl;
          by rewrite Hn2, E|].
  split; [intros E; rewrite (Hf E); unfold apply_token; simpl;
          by rewrite Hn2, E|].
  split; [intros E; rewrite (Hm E); unfold apply_token; simpl;
          by rewrite Hn2, E|].
  split; [intros E; rewrite (Ht E); unfold apply_token; simpl;
          by rewrite Hn2, E|].
  intros v Hv. split; intros E.
  - rewrite (Hs E), apply_token_trace. simpl. rewrite Hn2, E, Hv. simpl.
    by rewrite seeds_snoc, last_snoc.
  - rewrite (Hu E). unfold apply_token. simpl. by rewrite Hn2, E, Hv.
Qed.
End LastWins.

Lemma parse_options_last_wins_witness :
  ∃ s', parse_options (Build true true false) [0; 6; 9; 15; 19]
          (boot_state (pack ["-rs=1"; "-q"; "-rs=2"; "run"; "a"]) tt)
        = Ret [15; 19] s' ∧
        seeds (trace s') = [1; 2]%Z ∧
        randomSeed (configuration s') = Some 2%Z.
Proof.
  destruct (parse_options_last_wins (Build true true false)
              (boot_state (pack ["-rs=1"; "-q"; "-rs=2"; "run"; "a"]) tt)
              [(0, "-rs=1"); (6, "-q"); (9, "-rs=2")]
              [] [(6, "-q")] [] 0 9 "-rs=1" "-rs=2" [15; 19] "-rs")
    as (s' & s0 & Hrun & _ & _ & Hseeds & _ & _ & _ & _ & Hval);
    [reflexivity | reflexivity | reflexivity | constructor
    | by repeat constructor
    | repeat split; first [by vm_compute | repeat constructor; simpl; lia]
    | by exists "r"%char |].
  exists s'. split; [exact Hrun|]. split; [exact Hseeds|].
  exact (proj1 (Hval "2" eq_refl) eq_refl).
Defined.

Section OptionTheorems.
Context {PT : Type}.
Implicit Types (s : kstate PT) (tok nm v : string).

Lemma known_option_false cfg nm :
  known_option cfg nm = false →
  option_effect (PT := PT) cfg nm
  = λ _, PANIC ("unknown option `" +:+ nm +:+ "' (use -h for help)").
Proof.
  unfold known_option, recognized, option_effect. intros H.
  destruct (String.eqb nm "-h"); [done|].
  destruct (String.eqb nm "-q"); [done|].
  destruct (String.eqb nm "-rs"); [by rewrite !orb_true_r in H|].
  destruct (String.eqb nm "-mlfqs"); [by rewrite !orb_true_r in H|].
  destruct (FILESYS cfg), (USERPROG cfg), (String.eqb nm "-f"),
    (String.eqb nm "-ul"), (String.eqb nm "-threads-tests"); done.
Qed.

(** X1: a token that begins with the flag marker and whose name (the text
    before its first '=') is none of the options of the build halts the
    parser with the unknown-option message on that name; the flags, the
    console and the trace are as before, the token has been split. *)
Theorem parse_options_unknown_option cfg s (p : nat) (rest : list nat) tok r :
  cstr (drop p (mem s)) = Some tok → tok = String "-"%char r →
  known_option cfg (option_name tok) = false →
  parse_options cfg (p :: rest) s
  = Stop (Panic ("unknown option `" +:+ option_name tok +:+ "' (use -h for help)"))
         (split_state p tok s).
Proof.
  intros Hc Hr Hk.
  rewrite (parse_options_cons_token cfg s p rest tok r Hc Hr).
  by rewrite (known_option_false cfg _ Hk).
Qed.

Lemma power_off_run cfg {A} s :
  power_off cfg (A := A) s
  = Stop PoweredOff
      (set_trace (trace s ++ shutdown_events cfg)
         (set_console (console s ++ ["Powering off..." +:+ nl]) s)).
Proof.
  unfold power_off, print_stats, shutdown_events. unfold_monad.
  destruct s, (FILESYS cfg), (USERPROG cfg); simpl;
    rewrite <- ?app_assoc; reflexivity.
Qed.

(** X2: the help option, with or without a value behind it, prints the
    usage text, runs the shutdown sequence and powers the machine off;
    the tokens behind it are never looked at. *)
Theorem parse_options_help cfg s (p : nat) (rest : list nat) tok r :
  cstr (drop p (mem s)) = Some tok → tok = String "-"%char r →
  option_name tok = "-h" →
  ∃ s', parse_options cfg (p :: rest) s = Stop PoweredOff s' ∧
        console s' = console s ++ [usage_text cfg; "Powering off..." +:+ nl] ∧
        trace s' = trace s ++ shutdown_events cfg ∧
        mem s' = mem (split_state p tok s) ∧
        configuration s' = configuration s.
Proof.
  intros Hc Hr Hn.
  rewrite (parse_options_cons_token cfg s p rest tok r Hc Hr), Hn.
  unfold option_effect. simpl String.eqb. cbv iota.
  unfold usage, mbind at 1, M_bind at 1, bind at 1.
  unfold mbind at 1, M_bind at 1, bind at 1.
  unfold printf at 1, modify at 1. rewrite power_off_run.
  eexists. split; [reflexivity|].
  assert (Hseeds : seeds (shutdown_events cfg) = []).
  { unfold shutdown_events. by destruct (FILESYS cfg), (USERPROG cfg). }
  unfold split_state.
  destruct (option_value tok), s; simpl;
    (split; [by rewrite <- app_assoc|]); (split; [done|]); (split; [done|]);
    unfold configuration; simpl; unfold seeds in *;
    by rewrite omap_app, Hseeds, app_nil_r.
Qed.
(** X3: a numeric option whose '=' is followed by nothing ("-rs=", and
    "-ul=" in a user-program build) is treated like one without '=': the
    second [strtok_r] finds no token, [value] is null and [atoi]
    dereferences it.  The '=' has been overwritten by then. *)
Theorem parse_options_numeric_flag_empty_value
    cfg s (p : nat) (rest : list nat) nm :
  cstr (drop p (mem s)) = Some (nm +:+ "=") →
  nm = "-rs" ∨ (USERPROG cfg = true ∧ nm = "-ul") →
  parse_options cfg (p :: rest) s
  = Stop (Undefined "atoi: null pointer")
         (set_mem (<[p + String.length nm := NUL]> (mem s)) s).
Proof.
  intros Hc [->|[Hu ->]];
    rewrite (parse_options_cons_token cfg s p rest _ _ Hc eq_refl);
    unfold option_effect, value_arg, split_state; cbn; rewrite ?Hu;
    by destruct (FILESYS cfg).
Qed.

(** X4: a value given to a flag that takes none is ignored.  For the
    power-off flag, the scheduler flag, the format flag (with the file
    system) and the self-test flag (with user programs), a token with
    "=..." behind the name has the effect of the bare flag, and the
    parser goes on with the next token. *)
Theorem parse_options_value_ignored cfg s (p : nat) (rest : list nat) tok r :
  cstr (drop p (mem s)) = Some tok → tok = String "-"%char r →
  option_name tok = "-q" ∨ option_name tok = "-mlfqs" ∨
  (FILESYS cfg = true ∧ option_name tok = "-f") ∨
  (USERPROG cfg = true ∧ option_name tok = "-threads-tests") →
  parse_options cfg (p :: rest) s
  = parse_options cfg rest
      (set_flag (option_name tok) EmptyString (split_state p tok s)).
Proof.
  intros Hc Hr Hn.
  rewrite (parse_options_cons_token cfg s p rest tok r Hc Hr).
  destruct Hn as [->|[->|[[Hf ->]|[Hu ->]]]];
    unfold option_effect, set_flag; simpl; rewrite ?Hf, ?Hu; simpl;
    first [ reflexivity | by destruct (FILESYS cfg)
          | by destruct (FILESYS cfg), (USERPROG cfg) ].
Qed.
End OptionTheorems.

Lemma parse_options_unknown_option_witness :
  parse_options (Build false false false) [0; 5]
    (boot_state (pack ["-f=1"; "run"]) tt)
  = Stop (Panic "unknown option `-f' (use -h for help)")
      (boot_state (<[2 := NUL]> (pack ["-f=1"; "run"])) tt).
Proof.
  apply (parse_options_unknown_option (Build false false false)
           (boot_state (pack ["-f=1"; "run"]) tt) 0 [5] "-f=1" "f=1");
    [by vm_compute | reflexivity | reflexivity].
Defined.

Lemma parse_options_help_witness :
  ∃ s', parse_options (Build true true false) [0; 3]
          (boot_state (pack ["-h"; "-zz"]) tt) = Stop PoweredOff s' ∧
        trace s' = shutdown_events (Build true true false).
Proof.
  destruct (parse_options_help (Build true true false)
              (boot_state (pack ["-h"; "-zz"]) tt) 0 [3] "-h" "h")
    as (s' & Hrun & _ & Htr & _); [by vm_compute | reflexivity | reflexivity |].
  exists s'. split; [exact Hrun | exact Htr].
Defined.

Lemma parse_options_numeric_flag_empty_value_witness :
  parse_options (Build true true false) [0; 5]
    (boot_state (pack ["-rs="; "run"]) tt)
  = Stop (Undefined "atoi: null pointer")
      (boot_state (<[3 := NUL]> (pack ["-rs="; "run"])) tt).
Proof.
  apply (parse_options_numeric_flag_empty_value (Build true true false)
           (boot_state (pack ["-rs="; "run"]) tt) 0 [5] "-rs");
    [by vm_compute | by left].
Defined.

Lemma parse_options_value_ignored_witness :
  parse_options (Build true true false) [0; 7]
    (boot_state (pack ["-q=yes"; "ls"]) tt)
  = Ret [7] (set_power_off_when_done true
               (boot_state (<[2 := NUL]> (pack ["-q=yes"; "ls"])) tt)).
Proof.
  rewrite (parse_options_value_ignored (Build true true false)
             (boot_state (pack ["-q=yes"; "ls"]) tt) 0 [7] "-q=yes" "q=yes");
    [reflexivity | by vm_compute | reflexivity | by left].
Defined.

(** ** Actions *)

Section ActionTheorems.
Context {PT : Type}.
Implicit Types (s : kstate PT) (tok task : string) (argv rest : list nat).

Lemma find_action_unknown cfg tok :
  tok ∉ action_names cfg → find_action (PT := PT) cfg tok = None.
Proof.
  unfold action_names, find_action, actions. intros Hn.
  destruct (FILESYS cfg); simpl;
    repeat match goal with
    | |- context [String.eqb tok ?n] =>
        destruct (String.eqb_spec tok n) as [->|_];
          [exfalso; apply Hn; set_solver|]
    end; done.
Qed.

Lemma find_action_known cfg tok (a : @action PT) :
  find_action cfg tok = Some a → tok ∈ action_names cfg ∧ name a = tok.
Proof.
  unfold find_action. intros Ha.
  destruct (find_some _ _ Ha) as [Hin Heq]. apply String.eqb_eq in Heq.
  split; [|done]. rewrite Heq. clear Ha Heq.
  unfold actions, action_names in *.
  destruct (FILESYS cfg); simpl in Hin;
    repeat (destruct Hin as [<-|Hin]; [simpl; set_solver|]); done.
Qed.

Lemma check_args_enough tok (a : @action PT) argv n i s :
  i + n ≤ length argv → check_args tok a argv n i s = Ret tt s.
Proof.
  revert i. induction n as [|n IH]; intros i Hi; simpl; [done|].
  unfold arg. destruct (lookup_lt_is_Some_2 argv i ltac:(lia)) as [q ->].
  apply IH. lia.
Qed.

(** X5: a token that names no action of the build halts the dispatcher
    with the unknown-action message on that token, before any handler
    runs; in a build without the file system the file actions are
    unknown. *)
Theorem run_actions_unknown_action cfg s (p : nat) rest tok :
  cstr (drop p (mem s)) = Some tok →
  tok ∉ action_names cfg →
  run_actions cfg (p :: rest) s
  = Stop (Panic ("unknown action `" +:+ tok +:+ "' (use -h for help)")) s.
Proof.
  intros Hc Hn. unfold run_actions. simpl.
  unfold mbind, M_bind, bind. rewrite (cstring_at s p tok Hc).
  by rewrite (find_action_unknown cfg tok Hn).
Qed.

(** X6: every action that takes an argument (run, and cat, rm, put, get
    with the file system) halts the dispatcher when it is the last token,
    with the message that one argument is required; its handler is not
    called. *)
Theorem run_actions_missing_argument cfg s (p : nat) tok :
  cstr (drop p (mem s)) = Some tok →
  tok ∈ action_names cfg → tok ≠ "ls" →
  run_actions cfg [p] s
  = Stop (Panic ("action `" +:+ tok +:+ "' requires 1 argument(s)")) s.
Proof.
  intros Hc Hin Hls. unfold run_actions. simpl.
  unfold mbind, M_bind, bind. rewrite (cstring_at s p tok Hc).
  unfold action_names in Hin. unfold find_action, actions.
  destruct (FILESYS cfg);
    repeat (rewrite elem_of_cons in Hin; destruct Hin as [->|Hin]; [done|]);
    by apply elem_of_nil in Hin.
Qed.

(** X7: one round of the dispatcher.  A known action with all its tokens
    present passes the argument check, its handler is called with the
    vector from the action name on, and the loop resumes behind the
    [argc] tokens of the action. *)
Theorem run_actions_step cfg s (p : nat) rest tok (a : @action PT) :
  cstr (drop p (mem s)) = Some tok →
  find_action cfg tok = Some a →
  argc a ≤ S (length rest) →
  run_actions cfg (p :: rest) s
  = (function a (p :: rest) ≫= λ _,
     run_actions cfg (drop (argc a) (p :: rest))) s.
Proof.
  intros Hc Ha Hlen. unfold run_actions. simpl.
  unfold mbind at 1, M_bind at 1, bind at 1.
  rewrite (cstring_at s p tok Hc), Ha.
  unfold mbind at 1, M_bind at 1, bind at 1.
  rewrite check_args_enough by (simpl; lia).
  unfold mbind, M_bind, bind.
  destruct (function a (p :: rest) s) as [[] s1|h s1]; [|done].
  pose proof (find_action_argc cfg tok a Ha).
  apply run_actions_loop_fuel; rewrite ?length_drop; simpl; lia.
Qed.

(** X8: [run_task] announces the task, starts it and reports completion.
    In a user-program build without the self-test flag the task is handed
    to [process_create_initd] and awaited with [process_wait]; in every
    other case it is handed to [run_test].  Only [argv[1]] is read. *)
Theorem run_task_runs cfg s argv (q : nat) task :
  arg argv 1 = Some q →
  cstr (drop q (mem s)) = Some task →
  ∃ s', run_task cfg argv s = Ret tt s' ∧
        trace s' = trace s ++ task_events cfg (thread_tests s) task ∧
        console s'
        = console s ++ ["Executing '" +:+ task +:+ "':" +:+ nl;
                        "Execution of '" +:+ task +:+ "' complete." +:+ nl] ∧
        mem s' = mem s ∧ configuration s' = configuration s.
Proof.
  intros Hq Hc. unfold run_task. rewrite Hq.
  unfold mbind at 1, M_bind at 1, bind at 1. rewrite (cstring_at s q task Hc).
  unfold task_events, configuration, seeds. unfold_monad.
  destruct s as [m b ff po tt' ml ul co tr pt]; simpl.
  destruct (USERPROG cfg); simpl; [destruct tt'; simpl|];
    (eexists; split; [reflexivity|]; simpl; rewrite <- ?app_assoc;
     repeat split; try done; by rewrite ?omap_app, ?app_nil_r).
Qed.
End ActionTheorems.

Lemma run_actions_unknown_action_witness :
  run_actions (Build false true false) [0; 4]
    (boot_state (pack ["cat"; "f"]) tt)
  = Stop (Panic "unknown action `cat' (use -h for help)")
      (boot_state (pack ["cat"; "f"]) tt).
Proof.
  apply (run_actions_unknown_action (Build false true false)
           (boot_state (pack ["cat"; "f"]) tt) 0 [4] "cat");
    [by vm_compute | by apply (bool_decide_unpack _)].
Defined.

Lemma run_actions_missing_argument_witness :
  run_actions (Build true false false) [0] (boot_state (pack ["put"]) tt)
  = Stop (Panic "action `put' requires 1 argument(s)")
      (boot_state (pack ["put"]) tt).
Proof.
  apply (run_actions_missing_argument (Build true false false)
           (boot_state (pack ["put"]) tt) 0 "put");
    [by vm_compute | by apply (bool_decide_unpack _) | done].
Defined.

Lemma run_actions_step_witness :
  run_actions (Build true false false) [0; 3; 5]
    (boot_state (pack ["rm"; "f"; "ls"]) tt)
  = (fsutil "fsutil_rm" [0; 3; 5] ≫= λ _,
     run_actions (Build true false false) [5])
      (boot_state (pack ["rm"; "f"; "ls"]) tt).
Proof.
  apply (run_actions_step (Build true false false)
           (boot_state (pack ["rm"; "f"; "ls"]) tt) 0 [3; 5] "rm"
           (Action "rm" 2 (fsutil "fsutil_rm")));
    [by vm_compute | reflexivity | simpl; lia].
Defined.

Lemma run_task_runs_witness :
  ∃ s', run_task (Build false true false) [0; 4]
          (boot_state (pack ["run"; "ab"]) tt) = Ret tt s' ∧
        trace s' = [EvProcessCreateInitd "ab"; EvProcessWait].
Proof.
  destruct (run_task_runs (Build false true false)
              (boot_state (pack ["run"; "ab"]) tt) [0; 4] 4 "ab")
    as (s' & Hrun & Htr & _); [reflexivity | by vm_compute |].
  exists s'. split; [exact Hrun | exact Htr].
Defined.

(** ** The boot arguments *)

Section ArgumentTheorems.
Context {PT : Type}.
Implicit Types (s : kstate PT) (l : list string) (argv : list nat).

Lemma set_console_twice c1 c2 s :
  set_console c2 (set_console c1 s) = set_console c2 s.
Proof. by destruct s. Qed.

Lemma drop_next_string (m : list ascii) p t l rest :
  drop p m = pack (t :: l) ++ rest →
  drop (p + String.length t + 1) m = pack l ++ rest.
Proof.
  intros Hd. replace (p + String.length t + 1) with (p + S (String.length t))
    by lia.
  rewrite <- drop_drop, Hd. apply drop_pack_cons.
Qed.

Lemma read_args_sound L n i p argv s r s' :
  read_args L n i p argv s = Ret r s' →
  s' = s ∧
  ∃ new, r = argv ++ new ∧ length new = n ∧
         Forall (λ q, p ≤ q < L) new ∧ StronglySorted lt new ∧
         (n ≠ 0 → i + n ≤ argv_capacity L ∧ head new = Some p).
Proof.
  revert i p argv. induction n as [|n IH]; intros i p argv; simpl.
  - intros [= <- <-]. split; [done|]. exists []. rewrite app_nil_r.
    repeat split; (done || constructor).
  - destruct (decide (L ≤ p)); [done|].
    destruct (decide (argv_capacity L ≤ i)); [done|].
    unfold mbind, M_bind, bind, strnlen.
    destruct (strnlen_list _ _) as [len|]; [|done]. intros Hrun.
    destruct (IH _ _ _ Hrun) as (-> & new & -> & Hlen & Hin & Hs & Hcap).
    split; [done|]. exists (p :: new). rewrite <- app_assoc.
    repeat split; try done.
    + simpl. by rewrite Hlen.
    + constructor; [lia|]. eapply Forall_impl; [exact Hin|]. simpl. lia.
    + constructor; [done|]. eapply Forall_impl; [exact Hin|]. simpl. lia.
    + destruct n; [lia|]. destruct Hcap; [done|]. lia.
Qed.

Lemma echo_args_sound argv s s' :
  echo_args argv s = Ret tt s' →
  ∃ toks, Forall2 (λ q t, cstr (drop q (mem s)) = Some t) argv toks ∧
          s' = set_console (console s ++ map echo_text toks) s.
Proof.
  revert s. induction argv as [|q argv IH]; intros s; simpl.
  - intros [= <-]. exists []. split; [constructor|].
    simpl. rewrite app_nil_r. by destruct s.
  - unfold mbind at 1, M_bind at 1, bind at 1. unfold cstring at 1.
    destruct (cstr (drop q (mem s))) as [t|] eqn:Ht; [|done].
    unfold mbind at 1, M_bind at 1, bind at 1.
    assert (Hp : (if strchr t " "%char
                  then printf (" '" +:+ t +:+ "'") else printf (" " +:+ t)) s
                 = Ret tt (set_console (console s ++ [echo_text t]) s)).
    { unfold echo_text. by destruct (strchr t " "%char). }
    rewrite Hp. intros Hrun.
    destruct (IH _ Hrun) as (toks & Hall & ->).
    exists (t :: toks). split; [by constructor|].
    rewrite set_console_twice. simpl. by rewrite <- app_assoc.
Qed.

(** X9: what a returning [read_command_line] hands on.  The vector has as
    many entries as the count word says, fewer than the pointer array
    holds; the pointers begin at the start of the window, increase
    strictly and lie inside the window; each is the start of a terminated
    string, and the console has received the header, the echo of these
    strings and a line feed.  Nothing else of the state has changed. *)
Theorem read_command_line_returns L n s argv s' :
  read_command_line L n s = Ret argv s' →
  Z.of_nat (length argv) = int_of_uint32 n ∧
  length argv < argv_capacity L ∧
  Forall (λ q, q < L) argv ∧
  StronglySorted lt argv ∧
  (argv ≠ [] → head argv = Some 0) ∧
  ∃ toks, Forall2 (λ q t, cstr (drop q (mem s)) = Some t) argv toks ∧
          s' = echoed toks s.
Proof.
  unfold read_command_line.
  unfold mbind at 1, M_bind at 1, bind at 1.
  destruct (read_args L (Z.to_nat (int_of_uint32 n)) 0 0 [] s)
    as [r s1|] eqn:Hargs; [|done].
  destruct (read_args_sound _ _ _ _ _ _ _ _ Hargs)
    as (-> & new & -> & Hlen & Hin & Hs & Hcap).
  simpl app.
  unfold mbind at 1, M_bind at 1, bind at 1.
  destruct (decide (0 ≤ int_of_uint32 n < Z.of_nat (argv_capacity L))%Z)
    as [Hn|]; [|done].
  unfold mbind at 1, M_bind at 1, bind at 1. unfold mret at 1, M_ret at 1, ret at 1.
  unfold mbind at 1, M_bind at 1, bind at 1. unfold printf at 1, modify at 1.
  unfold mbind at 1, M_bind at 1, bind at 1.
  destruct (echo_args new _) as [[] s2|] eqn:Hecho; [|done].
  destruct (echo_args_sound _ _ _ Hecho) as (toks & Hall & ->).
  unfold_monad. intros [= <- <-].
  repeat split.
  - lia.
  - lia.
  - eapply Forall_impl; [exact Hin|]. simpl. lia.
  - done.
  - intros Hne. apply Hcap. rewrite <- Hlen. destruct new; [congruence|done].
  - exists toks. split; [exact Hall|].
    unfold echoed. rewrite !set_console_twice. simpl.
    by rewrite <- !app_assoc.
Qed.

Lemma read_args_packed L l rest s :
  Forall (λ t, strchr t NUL = false) l →
  ∀ i p argv,
    (l ≠ [] → drop p (mem s) = pack l ++ rest) →
    Forall (λ q, q < L) (offsets p l) →
    i + length l ≤ argv_capacity L →
    read_args L (length l) i p argv s = Ret (argv ++ offsets p l) s.
Proof.
  induction 1 as [|t l Ht _ IH]; intros i p argv Hd Hin Hcap.
  - simpl. by rewrite app_nil_r.
  - specialize (Hd ltac:(done)).
    apply Forall_cons in Hin as [Hp Hin]. simpl in Hcap.
    cbn [length offsets]. rewrite cons_middle, app_assoc.
    rewrite (read_args_round L (length l) i p argv s
               (Nat.min (L - p) (String.length t)));
      [|lia|lia|by rewrite Hd; apply strnlen_pack].
    destruct l as [|t' l'].
    + simpl. by rewrite app_nil_r.
    + assert (Hq : p + String.length t + 1 < L).
      { by apply Forall_cons in Hin as [Hq _]. }
      rewrite Nat.min_r by lia.
      apply IH; [|done|simpl in *; lia].
      intros _. by apply (drop_next_string _ p t).
Qed.

Lemma echo_args_packed l rest :
  Forall (λ t, strchr t NUL = false) l →
  ∀ p s,
    (l ≠ [] → drop p (mem s) = pack l ++ rest) →
    echo_args (offsets p l) s
    = Ret tt (set_console (console s ++ map echo_text l) s).
Proof.
  induction 1 as [|t l Ht _ IH]; intros p s Hd.
  - simpl. rewrite app_nil_r. by destruct s.
  - specialize (Hd ltac:(done)). cbn [offsets echo_args].
    unfold mbind at 1, M_bind at 1, bind at 1.
    rewrite (cstring_at s p t) by (by rewrite Hd; apply cstr_pack).
    unfold mbind at 1, M_bind at 1, bind at 1.
    assert (Hp : (if strchr t " "%char
                  then printf (" '" +:+ t +:+ "'") else printf (" " +:+ t)) s
                 = Ret tt (set_console (console s ++ [echo_text t]) s)).
    { unfold echo_text. by destruct (strchr t " "%char). }
    rewrite Hp, IH.
    + rewrite set_console_twice. simpl. by rewrite <- app_assoc.
    + intros _. by apply (drop_next_string _ p t).
Qed.

Lemma packed_read_command_line L n l rest s :
  mem s = pack l ++ rest →
  Forall (λ t, strchr t NUL = false) l →
  int_of_uint32 n = Z.of_nat (length l) →
  length l < argv_capacity L →
  Forall (λ q, q < L) (offsets 0 l) →
  read_command_line L n s = Ret (offsets 0 l) (echoed l s).
Proof.
  intros Hm Hl Hn Hcap Hin.
  unfold read_command_line. rewrite Hn, Nat2Z.id.
  unfold mbind at 1, M_bind at 1, bind at 1.
  rewrite (read_args_packed L l rest s Hl 0 0 []); [|done|done|lia].
  simpl app.
  unfold mbind at 1, M_bind at 1, bind at 1.
  rewrite decide_True by lia.
  unfold mbind at 1, M_bind at 1, bind at 1. unfold mret at 1, M_ret at 1, ret at 1.
  unfold mbind at 1, M_bind at 1, bind at 1. unfold printf at 1, modify at 1.
  unfold mbind at 1, M_bind at 1, bind at 1.
  rewrite (echo_args_packed l rest Hl 0) by done.
  unfold_monad. unfold echoed. rewrite !set_console_twice. simpl.
  by rewrite <- !app_assoc.
Qed.

Lemma offsets_nonempty_bound L l :
  Forall (λ t, t ≠ EmptyString) l →
  ∀ p, Forall (λ q, q < L) (offsets p l) → l ≠ [] →
       p + 2 * (length l - 1) < L.
Proof.
  induction 1 as [|t l Ht _ IH]; intros p Hin Hne; [done|].
  cbn [offsets] in Hin. apply Forall_cons in Hin as [Hp Hin].
  destruct l as [|t' l']; [simpl; lia|].
  specialize (IH _ Hin ltac:(done)). simpl in *.
  destruct t; [done|]. simpl in IH. lia.
Qed.

(** X10: the round trip with the layout of the loader.  When the memory at
    the window holds the strings [l] one behind the other, the count word is
    their number, the pointer array has room for them and each of them
    begins inside the window, [read_command_line] returns the offsets of
    the strings, in order, and echoes exactly these strings. *)
Theorem read_command_line_packed L n l rest s :
  mem s = pack l ++ rest →
  Forall (λ t, strchr t NUL = false) l →
  int_of_uint32 n = Z.of_nat (length l) →
  length l < argv_capacity L →
  Forall (λ q, q < L) (offsets 0 l) →
  read_command_line L n s = Ret (offsets 0 l) (echoed l s) ∧
  Forall2 (λ q t, cstr (drop q (mem (echoed l s))) = Some t) (offsets 0 l) l.
Proof.
  intros Hm Hl Hn Hcap Hin. split.
  - by apply (packed_read_command_line L n l rest).
  - change (mem (echoed l s)) with (mem s).
    assert (Hgen : ∀ p, (l ≠ [] → drop p (mem s) = pack l ++ rest) →
              Forall2 (λ q t, cstr (drop q (mem s)) = Some t) (offsets p l) l).
    { clear Hn Hcap Hin Hm. induction Hl as [|t l Ht _ IH]; intros p Hd.
      - constructor.
      - specialize (Hd ltac:(done)). simpl. constructor.
        + rewrite Hd. by apply cstr_pack.
        + apply IH. intros _. by apply (drop_next_string _ p t). }
    by apply Hgen.
Qed.

Lemma read_args_overflow L l rest s :
  Forall (λ t, strchr t NUL = false) l →
  ∀ k i p argv,
    (l ≠ [] → drop p (mem s) = pack l ++ rest) →
    Forall (λ q, q < L) (offsets p l) →
    L ≤ p + length (pack l) →
    i + length l ≤ argv_capacity L →
    read_args L (length l + S k) i p argv s
    = Stop (Panic "command line arguments overflow") s.
Proof.
  induction 1 as [|t l Ht _ IH]; intros k i p argv Hd Hin Hend Hcap.
  - simpl in *. by rewrite decide_True by lia.
  - specialize (Hd ltac:(done)).
    apply Forall_cons in Hin as [Hp Hin]. simpl in Hcap.
    cbn [length Nat.add].
    rewrite (read_args_round L (length l + S k) i p argv s
               (Nat.min (L - p) (String.length t)));
      [|lia|lia|by rewrite Hd; apply strnlen_pack].
    simpl in Hend. rewrite length_app, length_list_ascii in Hend.
    simpl in Hend.
    destruct l as [|t' l'].
    + simpl. rewrite decide_True; [done|]. simpl in Hend. lia.
    + assert (Hq : p + String.length t + 1 < L).
      { by apply Forall_cons in Hin as [Hq _]. }
      rewrite Nat.min_r by lia.
      apply IH; [|done|lia|simpl in *; lia].
      intros _. by apply (drop_next_string _ p t).
Qed.

(** X11: a count word that asks for more strings than begin inside the
    window is refused.  When the strings [l] reach the end of the window
    or pass it and the count is larger than their number, the test at the
    head of the loop halts with the overflow message; nothing is
    printed. *)
Theorem read_command_line_count_too_large L n l rest s :
  mem s = pack l ++ rest →
  Forall (λ t, strchr t NUL = false) l →
  Forall (λ q, q < L) (offsets 0 l) →
  L ≤ length (pack l) →
  length l ≤ argv_capacity L →
  (Z.of_nat (length l) < int_of_uint32 n)%Z →
  read_command_line L n s = Stop (Panic "command line arguments overflow") s.
Proof.
  intros Hm Hl Hin Hend Hcap Hn. unfold read_command_line.
  replace (Z.to_nat (int_of_uint32 n))
    with (length l + S (Z.to_nat (int_of_uint32 n) - length l - 1)) by lia.
  unfold mbind at 1, M_bind at 1, bind at 1.
  by rewrite (read_args_overflow L l rest s Hl _ 0 0 []).
Qed.

(** X12: a count word with bit 31 set is a negative [int]: the loop reads
    no string and the store of the closing null pointer falls before the
    pointer array. *)
Theorem read_command_line_negative_count L n s :
  (int_of_uint32 n < 0)%Z →
  read_command_line L n s
  = Stop (Undefined "argv[argc]: index outside the array") s.
Proof.
  intros Hn. unfold read_command_line.
  replace (Z.to_nat (int_of_uint32 n)) with 0 by lia. simpl read_args.
  unfold_monad. by rewrite decide_False by lia.
Qed.
End ArgumentTheorems.

Lemma read_command_line_returns_witness :
  StronglySorted lt [0; 3; 7] ∧
  ∃ toks, Forall2 (λ q t, cstr (drop q window3) = Some t) [0; 3; 7] toks.
Proof.
  destruct (read_command_line_returns 22 3 (boot_state window3 tt) [0; 3; 7]
              (final (read_command_line 22 3 (boot_state window3 tt))))
    as (_ & _ & _ & Hs & _ & toks & Hall & _); [by vm_compute|].
  split; [exact Hs|]. exists toks. exact Hall.
Defined.

Lemma read_command_line_packed_witness :
  read_command_line 8 2 (boot_state (pack ["-q"; "run it"]) tt)
  = Ret [0; 3] (echoed ["-q"; "run it"] (boot_state (pack ["-q"; "run it"]) tt)).
Proof.
  refine (proj1 (read_command_line_packed 8 2 ["-q"; "run it"] []
           (boot_state (pack ["-q"; "run it"]) tt) _ _ _ _ _));
    [reflexivity | by repeat constructor | reflexivity | vm_compute; lia
    | repeat constructor; simpl; lia].
Defined.

Lemma read_command_line_count_too_large_witness :
  read_command_line 7 3 (boot_state window3 tt)
  = Stop (Panic "command line arguments overflow") (boot_state window3 tt).
Proof.
  apply (read_command_line_count_too_large 7 3 ["-q"; "run"]
           (pack ["alarm-multiple"] ++ repeat NUL 10) (boot_state window3 tt));
    [reflexivity | by repeat constructor | repeat constructor; simpl; lia
    | simpl; lia | vm_compute; lia | by vm_compute].
Defined.

Lemma read_command_line_negative_count_witness :
  read_command_line 128 (2 ^ 32 - 1) (boot_state window3 tt)
  = Stop (Undefined "argv[argc]: index outside the array")
      (boot_state window3 tt).
Proof.
  apply (read_command_line_negative_count 128 (2 ^ 32 - 1)
           (boot_state window3 tt)).
  by vm_compute.
Defined.

(** ** What each phase leaves alone *)

Section Keeps.
Context {PT : Type} (R : relation (kstate PT)).
Hypothesis R_refl : ∀ s, R s s.
Hypothesis R_trans : ∀ s1 s2 s3, R s1 s2 → R s2 s3 → R s1 s3.
Hypothesis R_console : ∀ s c, R s (set_console c s).
Hypothesis R_trace : ∀ s t, R s (set_trace t s).
Hypothesis R_mem : ∀ s m, R s (set_mem m s).

Lemma keeps_bind {A B} (m : M PT A) (k : A → M PT B) :
  keeps R m → (∀ a, keeps R (k a)) → keeps R (m ≫= k).
Proof.
  intros Hm Hk s. unfold mbind, M_bind, bind.
  specialize (Hm s). destruct (m s) as [a s1|h s1]; simpl in *; [|done].
  eapply R_trans; [exact Hm | apply Hk].
Qed.

Lemma keeps_same {A} (m : M PT A) : (∀ s, final (m s) = s) → keeps R m.
Proof. intros Hm s. rewrite Hm. apply R_refl. Qed.

Lemma keeps_ret {A} (a : A) : keeps R (mret a : M PT A).
Proof. by apply keeps_same. Qed.
Lemma keeps_stop {A} h : keeps R (stop h : M PT A).
Proof. by apply keeps_same. Qed.
Lemma keeps_PANIC {A} msg : keeps R (PANIC msg : M PT A).
Proof. by apply keeps_same. Qed.
Lemma keeps_get : keeps R (get : M PT _).
Proof. by apply keeps_same. Qed.
Lemma keeps_cstring p : keeps R (cstring p : M PT string).
Proof. apply keeps_same. intros s. unfold cstring. by destruct (cstr _). Qed.
Lemma keeps_load p : keeps R (load p : M PT ascii).
Proof. apply keeps_same. intros s. unfold load. by destruct (_ !! _). Qed.
Lemma keeps_strnlen p n : keeps R (strnlen p n : M PT nat).
Proof.
  apply keeps_same. intros s. unfold strnlen. by destruct (strnlen_list _ _).
Qed.
Lemma keeps_printf t : keeps R (printf t : M PT unit).
Proof. intros s. apply R_console. Qed.
Lemma keeps_emit e : keeps R (emit e : M PT unit).
Proof. intros s. apply R_trace. Qed.
Lemma keeps_store p c : keeps R (store p c : M PT unit).
Proof.
  intros s. unfold store. destruct (decide _); simpl; [apply R_mem | apply R_refl].
Qed.
Lemma keeps_when b (m : M PT unit) : keeps R m → keeps R (when b m).
Proof. destruct b; [done|]. intros _. apply keeps_ret. Qed.
Lemma keeps_atoi v : keeps R (atoi v : M PT Z).
Proof.
  destruct v as [q|]; simpl; [|apply keeps_stop].
  apply keeps_bind; [apply keeps_cstring|]. intros a. apply keeps_ret.
Qed.

Ltac keeps_tac :=
  repeat first
    [ progress intros
    | apply keeps_bind
    | apply keeps_when
    | apply keeps_ret | apply keeps_stop | apply keeps_PANIC | apply keeps_get
    | apply keeps_cstring | apply keeps_load | apply keeps_strnlen
    | apply keeps_printf | apply keeps_emit | apply keeps_store
    | apply keeps_atoi
    | match goal with
      | H : _ |- _ => solve [apply H]
      | |- keeps _ (if ?b then _ else _) => destruct b
      | |- keeps _ (match ?o with _ => _ end) => destruct o
      end ].

Lemma keeps_power_off cfg {A} : keeps R (power_off cfg : M PT A).
Proof. unfold power_off, print_stats. keeps_tac. Qed.

Lemma keeps_usage cfg {A} : keeps R (usage cfg : M PT A).
Proof. unfold usage. pose proof (@keeps_power_off cfg A). keeps_tac. Qed.

Lemma keeps_read_command_line L n : keeps R (read_command_line L n : M PT _).
Proof.
  assert (Hargs : ∀ k i p argv, keeps R (read_args L k i p argv : M PT _)).
  { induction k as [|k IH]; intros i p argv; simpl; keeps_tac. }
  assert (Hecho : ∀ argv, keeps R (echo_args argv : M PT _)).
  { induction argv as [|p argv IH]; simpl; keeps_tac. }
  unfold read_command_line. keeps_tac.
Qed.

Lemma keeps_run_actions cfg argv : keeps R (run_actions cfg argv : M PT _).
Proof.
  unfold run_actions. generalize (length argv) as fuel. intros fuel.
  revert argv. induction fuel as [|fuel IH]; intros [|p argv]; simpl;
    try by keeps_tac.
  apply keeps_bind; [keeps_tac|]. intros tok.
  destruct (find_action cfg tok) as [a|] eqn:Ha; [|keeps_tac].
  apply keeps_bind.
  { assert (Hc : ∀ k i, keeps R (check_args tok a (p :: argv) k i : M PT _)).
    { induction k as [|k IHk]; intros i; simpl; keeps_tac. }
    apply Hc. }
  intros _. apply keeps_bind; [|intros _; apply IH].
  unfold find_action in Ha. apply find_some in Ha as [Hin _].
  unfold actions in Hin.
  assert (Hrt : keeps R (run_task cfg (p :: argv) : M PT _)).
  { unfold run_task. keeps_tac. }
  destruct (FILESYS cfg); simpl in Hin;
    repeat (destruct Hin as [<-|Hin];
            [first [exact Hrt | simpl; unfold fsutil; keeps_tac]|]);
    done.
Qed.

Lemma keeps_strtok_r sp d sv : keeps R (strtok_r sp d sv : M PT _).
Proof.
  unfold strtok_r. destruct (match sp with Some p => Some p | None => sv end);
    [|keeps_tac].
  apply keeps_bind; [by apply keeps_same|]. intros m. keeps_tac.
Qed.

Section Options.
Variable cfg : build.
Hypothesis R_q : ∀ s, R s (set_power_off_when_done true s).
Hypothesis R_mlfqs : ∀ s, R s (set_thread_mlfqs true s).
Hypothesis R_f : FILESYS cfg = true → ∀ s, R s (set_format_filesys true s).
Hypothesis R_ul : USERPROG cfg = true → ∀ s v, R s (set_user_page_limit v s).
Hypothesis R_tests : USERPROG cfg = true → ∀ s, R s (set_thread_tests true s).

Lemma keeps_parse_options argv : keeps R (parse_options cfg argv : M PT _).
Proof.
  induction argv as [|p argv IH]; simpl; [keeps_tac|].
  apply keeps_bind; [keeps_tac|]. intros c.
  destruct (Ascii.eqb c "-"); [|keeps_tac].
  apply keeps_bind; [|by intros _].
  unfold parse_option.
  apply keeps_bind; [apply keeps_strtok_r|]. intros [nm sv].
  apply keeps_bind; [apply keeps_strtok_r|]. intros [value sv'].
  apply keeps_bind; [keeps_tac|]. intros txt.
  pose proof (@keeps_usage cfg unit) as Hu.
  destruct (String.eqb txt "-h"); [exact Hu|].
  destruct (String.eqb txt "-q"); [intros s; apply R_q|].
  destruct (FILESYS cfg) eqn:Hf, (USERPROG cfg) eqn:Hup; simpl;
    repeat match goal with
    | |- keeps _ (if ?b then _ else _) => destruct b
    end;
    first [ intros s; first [ apply R_mlfqs | by apply R_f | by apply R_tests ]
          | apply keeps_bind; [apply keeps_atoi|]; intros v s;
            first [ apply R_trace | by apply R_ul ]
          | keeps_tac ].
Qed.
End Options.
End Keeps.

Section FrameTheorems.
Context {PT : Type}.
Implicit Types s : kstate PT.

Lemma raised_refl cfg s : raised cfg s s.
Proof. unfold raised. tauto. Qed.

Lemma raised_trans cfg s1 s2 s3 :
  raised cfg s1 s2 → raised cfg s2 s3 → raised cfg s1 s3.
Proof.
  unfold raised. intros (?&?&?&?&?&?&HF&HU) (?&?&?&?&?&?&HF'&HU').
  split_and!; try congruence; try tauto.
  - intros Hc. rewrite (HF' Hc). by apply HF.
  - intros Hc. destruct (HU Hc), (HU' Hc). split; congruence.
Qed.

(** X13: the option parser only raises flags.  After [parse_options],
    whatever its outcome, no flag that was set has been cleared, the page
    tables and their root are untouched, and in a build without the file
    system or without user programs the variables of that part
    ([format_filesys]; [thread_tests] and [user_page_limit]) are as they
    were, whatever the tokens say. *)
Theorem parse_options_raises_flags cfg argv s :
  raised cfg s (final (parse_options cfg argv s)).
Proof.
  apply (keeps_parse_options (raised cfg) (raised_refl cfg) (raised_trans cfg));
    try (intros; unfold raised; simpl; repeat split; (done || congruence)).
Qed.

(** X14: only the option parser writes the option variables.
    [read_command_line] and [run_actions] leave [format_filesys],
    [power_off_when_done], [thread_tests], [thread_mlfqs] and
    [user_page_limit] as they were, whatever their outcome, and so do the
    shutdown sequence and the usage text. *)
Theorem option_variables_frozen cfg L n argv s :
  option_variables (final (read_command_line L n s)) = option_variables s ∧
  option_variables (final (run_actions cfg argv s)) = option_variables s ∧
  option_variables (final (power_off cfg (A := unit) s)) = option_variables s ∧
  option_variables (final (usage cfg (A := unit) s)) = option_variables s.
Proof.
  set (R := λ s s' : kstate PT, option_variables s' = option_variables s).
  assert (Hr : ∀ s, R s s) by done.
  assert (Ht : ∀ s1 s2 s3, R s1 s2 → R s2 s3 → R s1 s3).
  { unfold R. intros. congruence. }
  split; [|split; [|split]].
  - by apply (keeps_read_command_line R).
  - by apply (keeps_run_actions R).
  - by apply (keeps_power_off R).
  - by apply (keeps_usage R).
Qed.
End FrameTheorems.

(** ** The size of the pointer array *)

Section ArraySize.
Context {PT : Type}.
Implicit Types (s : kstate PT) (l : list string).

(** X15: the pointer array is large enough for arguments that are not
    empty.  With a window of even length, strings none of which is empty
    and each of which begins inside the window never reach the end of the
    array: [read_command_line] returns their offsets. *)
Theorem read_command_line_array_suffices L n l rest s :
  Nat.even L = true →
  mem s = pack l ++ rest →
  Forall (λ t, strchr t NUL = false) l →
  Forall (λ t, t ≠ EmptyString) l →
  int_of_uint32 n = Z.of_nat (length l) →
  Forall (λ q, q < L) (offsets 0 l) →
  length l < argv_capacity L ∧
  read_command_line L n s = Ret (offsets 0 l) (echoed l s).
Proof.
  intros Hev Hm Hl Hne Hn Hin.
  assert (Hcap : length l < argv_capacity L).
  { unfold argv_capacity. apply Nat.even_spec in Hev as [m ->].
    destruct l as [|t l']; [simpl; lia|].
    pose proof (offsets_nonempty_bound (2 * m) _ Hne 0 Hin ltac:(done)).
    rewrite (Nat.mul_comm 2 m), Nat.div_mul by lia.
    simpl in *. lia. }
  split; [done|]. by apply (packed_read_command_line L n l rest).
Qed.

Lemma strnlen_list_terminators L i (rest : list ascii) :
  i < L → strnlen_list (drop i (repeat NUL L ++ rest)) (L - i) = Some 0.
Proof.
  revert i. induction L as [|L IH]; intros i Hi; [lia|].
  destruct i as [|i]; [reflexivity|]. simpl. apply IH. lia.
Qed.

Lemma read_args_empty_strings L rest s :
  mem s = repeat NUL L ++ rest →
  argv_capacity L < L →
  ∀ k i argv,
    i ≤ argv_capacity L → argv_capacity L < i + k →
    read_args L k i i argv s
    = Stop (Undefined "argv[i]: index outside the array") s.
Proof.
  intros Hm Hcap. induction k as [|k IH]; intros i argv Hi Hk; [lia|].
  destruct (decide (i = argv_capacity L)) as [->|Hne].
  - simpl. rewrite decide_False by lia. by rewrite decide_True by lia.
  - rewrite (read_args_round L k i i argv s 0); [|lia|lia|].
    + replace (i + 0 + 1) with (S i) by lia. apply IH; lia.
    + rewrite Hm. apply strnlen_list_terminators. lia.
Qed.

Lemma read_args_empty_strings_fit L rest s :
  mem s = repeat NUL L ++ rest →
  ∀ k i argv,
    i + k ≤ argv_capacity L → i + k ≤ L →
    read_args L k i i argv s = Ret (argv ++ seq i k) s.
Proof.
  intros Hm. induction k as [|k IH]; intros i argv Hi Hk.
  - simpl. by rewrite app_nil_r.
  - rewrite (read_args_round L k i i argv s 0); [|lia|lia|].
    + replace (i + 0 + 1) with (S i) by lia. rewrite IH by lia.
      simpl. by rewrite <- app_assoc.
    + rewrite Hm. apply strnlen_list_terminators. lia.
Qed.

(** X16: empty arguments overrun the pointer array.  In a window of at
    least three bytes that holds only terminators, a count word that
    reaches the size of the array is not refused with the overflow
    message: a pointer, or the closing null pointer, is stored behind the
    end of the array. *)
Theorem read_command_line_empty_strings L n rest s :
  mem s = repeat NUL L ++ rest →
  3 ≤ L →
  (Z.of_nat (argv_capacity L) ≤ int_of_uint32 n)%Z →
  ∃ why, read_command_line L n s = Stop (Undefined why) s.
Proof.
  intros Hm HL Hn.
  assert (Hcap : argv_capacity L < L).
  { unfold argv_capacity. pose proof (Nat.div_mod_eq L 2).
    pose proof (Nat.mod_upper_bound L 2). lia. }
  unfold read_command_line.
  unfold mbind at 1, M_bind at 1, bind at 1.
  destruct (decide (Z.to_nat (int_of_uint32 n) = argv_capacity L)) as [E|E].
  - rewrite E, (read_args_empty_strings_fit L rest s Hm) by lia.
    unfold mbind at 1, M_bind at 1, bind at 1.
    rewrite decide_False by lia. by eexists.
  - rewrite (read_args_empty_strings L rest s Hm Hcap) by lia. by eexists.
Qed.
End ArraySize.

Lemma read_command_line_array_suffices_witness :
  read_command_line 8 3 (boot_state (pack ["-q"; "ls"; "a"]) tt)
  = Ret [0; 3; 6] (echoed ["-q"; "ls"; "a"] (boot_state (pack ["-q"; "ls"; "a"]) tt)).
Proof.
  refine (proj2 (read_command_line_array_suffices 8 3 ["-q"; "ls"; "a"] []
                   (boot_state (pack ["-q"; "ls"; "a"]) tt) _ _ _ _ _ _));
    [reflexivity | reflexivity | by repeat constructor | by repeat constructor
    | reflexivity | repeat constructor; simpl; lia].
Defined.

Lemma read_command_line_empty_strings_witness :
  ∃ why, read_command_line 4 3 (boot_state (repeat NUL 4) tt)
         = Stop (Undefined why) (boot_state (repeat NUL 4) tt).
Proof.
  apply (read_command_line_empty_strings 4 3 [] (boot_state (repeat NUL 4) tt));
    [reflexivity | lia | by vm_compute].
Defined.

(** ** The loop of the bootstrapper *)

Section PagingTheorems.
Context {PT : Type} `{Mmu PT}.
Local Open Scope Z_scope.

Lemma page_multiple_bound n k :
  0 ≤ n ≤ 64 → 0 ≤ k * 2 ^ n < 2 ^ 64 → k * 2 ^ n ≤ 2 ^ 64 - 2 ^ n.
Proof.
  intros Hn Hk.
  assert (Hp : 0 < 2 ^ n) by (apply Z.pow_pos_nonneg; lia).
  assert (Hs : 2 ^ 64 = 2 ^ (64 - n) * 2 ^ n).
  { rewrite <- Z.pow_add_r by lia. by replace (64 - n + n) with 64 by lia. }
  rewrite Hs in *.
  assert (Hlt : k < 2 ^ (64 - n)) by (apply (Z.mul_lt_mono_pos_r (2 ^ n)); lia).
  nia.
Qed.

Lemma next_page_multiple n k :
  0 ≤ n ≤ 64 → ∃ k', (k * 2 ^ n + 2 ^ n) mod 2 ^ 64 = k' * 2 ^ n.
Proof.
  intros Hn.
  assert (Hp : 0 < 2 ^ n) by (apply Z.pow_pos_nonneg; lia).
  assert (Hs : 2 ^ 64 = 2 ^ (64 - n) * 2 ^ n).
  { rewrite <- Z.pow_add_r by lia. by replace (64 - n + n) with 64 by lia. }
  exists ((k + 1) mod 2 ^ (64 - n)).
  rewrite Hs. replace (k * 2 ^ n + 2 ^ n) with ((k + 1) * 2 ^ n) by lia.
  rewrite Z.mul_mod_distr_r; [done|lia|].
  assert (0 < 2 ^ (64 - n)) by (apply Z.pow_pos_nonneg; lia). lia.
Qed.

Lemma paging_loop_wraps n mem_end r :
  0 ≤ n ≤ 64 → PGSIZE = 2 ^ n → 2 ^ 64 - PGSIZE < mem_end →
  ∀ fuel k t, 0 ≤ k * PGSIZE < 2 ^ 64 →
              paging_loop fuel r mem_end (k * PGSIZE) t = None.
Proof.
  intros Hn Hpg Hend. induction fuel as [|fuel IH]; intros k t Hk; simpl.
  - pose proof (page_multiple_bound n k Hn) as Hb. rewrite <- Hpg in Hb.
    destruct (Z.ltb_spec (k * PGSIZE) mem_end); [done|lia].
  - pose proof (page_multiple_bound n k Hn) as Hb. rewrite <- Hpg in Hb.
    destruct (Z.ltb_spec (k * PGSIZE) mem_end); [|lia].
    destruct (next_page_multiple n k Hn) as [k' Hk']. rewrite <- Hpg in Hk'.
    rewrite Hk'. apply IH. rewrite <- Hk'. apply Z.mod_pos_bound. lia.
Qed.

(** X17: a memory top within the last page of the 64-bit range makes the
    loop of [paging_init] run for ever: the page address wraps around to 0
    before it can reach the top, so no number of rounds ends the loop, and
    the table is never activated. *)
Theorem paging_init_never_ends mem_end s r (t0 : PT) :
  (∃ n, 0 ≤ n ≤ 64 ∧ PGSIZE = 2 ^ n) →
  2 ^ 64 - PGSIZE < mem_end →
  palloc_get_page (pts s) = (Some r, t0) →
  (∀ fuel t, paging_loop fuel r mem_end 0 t = None) ∧
  ∃ s', paging_init mem_end s = Stop Hang s' ∧
        trace s' = trace s ++ [EvPallocGetPage "PAL_ASSERT | PAL_ZERO"].
Proof.
  intros (n & Hn & Hpg) Hend Hp.
  assert (Hloop : ∀ fuel t, paging_loop fuel r mem_end 0 t = None).
  { intros fuel t.
    rewrite <- (Z.mul_0_l PGSIZE).
    apply (paging_loop_wraps n); (done || lia). }
  split; [exact Hloop|].
  unfold paging_init. unfold_monad. rewrite Hp, Hloop.
  eexists. split; [reflexivity|]. done.
Qed.

Lemma lor_below n a b :
  0 ≤ n → 0 ≤ a < 2 ^ n → 0 ≤ b < 2 ^ n → 0 ≤ Z.lor a b < 2 ^ n.
Proof.
  intros Hn Ha Hb.
  assert (H0 : 0 ≤ Z.lor a b) by (apply Z.lor_nonneg; lia).
  split; [done|].
  assert (Hs : Z.shiftr (Z.lor a b) n = 0).
  { rewrite Z.shiftr_lor, !Z.shiftr_div_pow2, !Z.div_small by lia. done. }
  rewrite Z.shiftr_div_pow2 in Hs by lia.
  apply Z.div_small_iff in Hs; lia.
Qed.

Lemma land_below n a b :
  0 ≤ n → 0 ≤ a < 2 ^ n → 0 ≤ Z.land a b < 2 ^ n.
Proof.
  intros Hn Ha.
  assert (H0 : 0 ≤ Z.land a b) by (apply Z.land_nonneg; lia).
  split; [done|].
  assert (Hs : Z.shiftr (Z.land a b) n = 0).
  { rewrite Z.shiftr_land, (Z.shiftr_div_pow2 a), (Z.div_small a) by lia.
    apply Z.land_0_l. }
  rewrite Z.shiftr_div_pow2 in Hs by lia.
  apply Z.div_small_iff in Hs; lia.
Qed.

Lemma perm_for_range va :
  (∃ n, 0 ≤ n ≤ 64 ∧ PGSIZE = 2 ^ n) →
  0 < PTE_P < PGSIZE → 0 < PTE_W < PGSIZE →
  0 ≤ perm_for va < PGSIZE.
Proof.
  intros (n & Hn & Hpg) HP HW. rewrite Hpg in *.
  assert (Hl : 0 ≤ Z.lor PTE_P PTE_W < 2 ^ n) by (apply lor_below; lia).
  unfold perm_for. destruct (in_kernel_text va); [|done].
  apply land_below; [lia | done].
Qed.

(** X18: the entry of a page holds the frame and the permission bits side
    by side.  After the round for page [k] with a successful walk, the
    entry is the physical address plus the permission bits; dividing by
    the page size gives back the page number, the remainder gives back the
    bits. *)
Theorem map_page_entry_decodes r k s p (s1 : PT) :
  MmuSpec → 0 ≤ k →
  pml4e_walk s r (ptov (k * PGSIZE)) true = (Some p, s1) →
  load64 (map_page r (k * PGSIZE) s) p
  = k * PGSIZE + perm_for (ptov (k * PGSIZE)) ∧
  load64 (map_page r (k * PGSIZE) s) p / PGSIZE = k ∧
  load64 (map_page r (k * PGSIZE) s) p mod PGSIZE
  = perm_for (ptov (k * PGSIZE)).
Proof.
  intros Hspec Hk Hw.
  pose proof (pgsize_pow2 Hspec) as Hpow.
  pose proof (perm_for_range (ptov (k * PGSIZE)) Hpow
                (pte_p_range Hspec) (pte_w_range Hspec)) as Hperm.
  assert (Hpg : 0 < PGSIZE) by lia.
  assert (He : load64 (map_page r (k * PGSIZE) s) p
               = k * PGSIZE + perm_for (ptov (k * PGSIZE))).
  { unfold map_page. rewrite Hw, (load_store_eq Hspec).
    rewrite <- (Z.add_lor_land (k * PGSIZE)).
    rewrite (aligned_land_flag k _ Hpow) by done. lia. }
  rewrite He. split; [done|]. split.
  - rewrite Z.add_comm, Z.div_add by lia. rewrite Z.div_small by lia. lia.
  - rewrite Z.add_comm, Z.mod_add by lia. by apply Z.mod_small.
Qed.
End PagingTheorems.

Lemma paging_init_never_ends_witness :
  ∃ s', paging_init (2 ^ 64 - 1) (boot_state [] (flat_init 8)) = Stop Hang s'.
Proof.
  destruct (paging_init_never_ends (2 ^ 64 - 1) (boot_state [] (flat_init 8))
              0x100000 (FlatPt ∅ ∅ 7))
    as (_ & s' & Hrun & _);
    [exists 12%Z; split; [lia | reflexivity] | by vm_compute | reflexivity |].
  exists s'. exact Hrun.
Defined.

Lemma map_page_entry_decodes_witness :
  (load64 (map_page 0x100000 (1 * PGSIZE) (flat_init 8)) (flat_slot (ptov 4096))
   / PGSIZE = 1)%Z.
Proof.
  refine (proj1 (proj2 (map_page_entry_decodes 0x100000 1 (flat_init 8)
                          (flat_slot (ptov 4096))
                          (FlatPt (<[flat_slot (ptov 4096) := 0%Z]> ∅)
                                  ({[ (ptov 4096 / 4096)%Z ]} ∪ ∅) 7) _ _ _)));
    [exact flat_mmu_spec | lia | by vm_compute].
Defined.

(** ** The entry point *)

Section MainTheorems.
Context {PT : Type} `{Mmu PT}.
Local Open Scope Z_scope.
Implicit Types s : kstate PT.

Lemma option_phase_calm cfg L n :
  emits calm (bss_init ≫= λ _, read_command_line L n ≫= parse_options cfg
              : M PT _).
Proof.
  apply emits_bind.
  { unfold bss_init.
    repeat (apply emits_bind; [by apply emits_quiet|]; intros _).
    by apply emits_quiet. }
  intros _. apply emits_bind; [apply emits_read_command_line|]. intros a.
  apply emits_parse_options.
Qed.

Lemma main_after_options cfg L n MEM_END s :
  main cfg L n MEM_END s
  = ((bss_init ≫= λ _, read_command_line L n ≫= parse_options cfg) ≫= λ argv,
     call "thread_init" ≫= λ _, call "console_init" ≫= λ _,
     call "palloc_init" ≫= λ _, call "malloc_init" ≫= λ _,
     paging_init MEM_END ≫= λ _,
     when (USERPROG cfg) (call "tss_init" ≫= λ _, call "gdt_init") ≫= λ _,
     call "intr_init" ≫= λ _, call "timer_init" ≫= λ _,
     call "kbd_init" ≫= λ _, call "input_init" ≫= λ _,
     when (USERPROG cfg) (call "exception_init" ≫= λ _, call "syscall_init")
     ≫= λ _,
     call "thread_start" ≫= λ _, call "serial_init_queue" ≫= λ _,
     call "timer_calibrate" ≫= λ _,
     when (FILESYS cfg)
       (call "disk_init" ≫= λ _,
        get ≫= λ s0, emit (EvFilesysInit (format_filesys s0))) ≫= λ _,
     when (VM cfg) (call "vm_init") ≫= λ _,
     printf ("Boot complete." +:+ nl) ≫= λ _,
     run_actions cfg argv ≫= λ _,
     get ≫= λ s0,
     when (power_off_when_done s0) (power_off cfg) ≫= λ _,
     call "thread_exit" ≫= λ _, stop ThreadExited) s.
Proof.
  unfold main. rewrite !bind_assoc_at.
  unfold mbind at 1, M_bind at 1, bind at 1.
  symmetry. unfold mbind at 1, M_bind at 1, bind at 1. symmetry.
  destruct (bss_init s) as [[] sb|hb sb]; [|done].
  rewrite !bind_assoc_at. reflexivity.
Qed.

(** X19: a halt of the argument or option phase is the halt of [main]:
    when reading the arguments or parsing the options stops (overflow,
    unknown option, the help option, a numeric option without value),
    [main] stops in the same way and in the same state, and no start-up
    routine has been called and no page allocated. *)
Theorem main_stops_with_options cfg L n MEM_END s h s1 :
  (bss_init ≫= λ _, read_command_line L n ≫= parse_options cfg) s = Stop h s1 →
  main cfg L n MEM_END s = Stop h s1 ∧
  ∃ post, trace s1 = trace s ++ post ∧ Forall calm post.
Proof.
  intros Hopt. split.
  - rewrite main_after_options.
    unfold mbind at 1, M_bind at 1, bind at 1. by rewrite Hopt.
  - destruct (option_phase_calm cfg L n s) as (post & E & F).
    rewrite Hopt in E. by exists post.
Qed.

Lemma paging_init_state mem_end s r (t0 : PT) :
  0 < PGSIZE → 0 ≤ mem_end → mem_end + PGSIZE ≤ 2 ^ 64 →
  palloc_get_page (pts s) = (Some r, t0) →
  paging_init mem_end s
  = Ret tt (set_trace (trace s ++ paging_events)
              (set_pts (map_pages (Z.to_nat (pages_below mem_end)) r 0 t0)
                 (set_base_pml4 r s))).
Proof.
  intros Hpg H0 Hend Hp. unfold paging_init. unfold_monad. rewrite Hp.
  rewrite paging_loop_from_zero by done.
  destruct s; simpl. by rewrite <- app_assoc.
Qed.

(** The state in which the action script starts, and what is left of
    [main] from there. *)
Lemma main_reaches_actions cfg L n MEM_END s argv s1 r (p0 : PT) :
  0 < PGSIZE → 0 ≤ MEM_END → MEM_END + PGSIZE ≤ 2 ^ 64 →
  (bss_init ≫= λ _, read_command_line L n ≫= parse_options cfg) s
  = Ret argv s1 →
  palloc_get_page (pts s1) = (Some r, p0) →
  ∃ s2, mem s2 = mem s1 ∧ option_variables s2 = option_variables s1 ∧
        console s2 = console s1 ++ ["Boot complete." +:+ nl] ∧
        main cfg L n MEM_END s
        = (run_actions cfg argv ≫= λ _,
           get ≫= λ s0,
           when (power_off_when_done s0) (power_off cfg) ≫= λ _,
           call "thread_exit" ≫= λ _, stop ThreadExited) s2.
Proof.
  intros Hpg H0 Hend Hopt Hp.
  rewrite main_after_options.
  unfold mbind at 1, M_bind at 1, bind at 1. rewrite Hopt.
  match goal with
  | |- context [printf ?t ≫= ?k] => set (finish := k)
  end.
  rewrite call_first, !call_next.
  match goal with
  | |- context [(paging_init MEM_END ≫= ?k) ?t] =>
      rewrite (bind_Ret _ k t tt _
                 (paging_init_state MEM_END t r p0 Hpg H0 Hend Hp))
  end.
  destruct (USERPROG cfg), (FILESYS cfg), (VM cfg); unfold when;
    rewrite ?bind_assoc_at, ?ret_next; rewrite call_first;
    repeat first [ rewrite filesys_init_next | rewrite call_next
                 | rewrite ret_next | rewrite bind_assoc_at ];
    rewrite printf_next;
    (eexists; split; [|split; [|split; [|reflexivity]]]); reflexivity.
Qed.

(** X20: how [main] ends.  Once the options are parsed and the page
    tables are set up, [main] prints the boot message and runs the action
    script; a halt of the script is the halt of [main]; when the script
    returns, [main] runs the shutdown sequence and powers off if the
    power-off flag was set by the options, and otherwise calls
    [thread_exit]. *)
Theorem main_ends cfg L n MEM_END s argv s1 r (p0 : PT) :
  0 < PGSIZE → 0 ≤ MEM_END → MEM_END + PGSIZE ≤ 2 ^ 64 →
  (bss_init ≫= λ _, read_command_line L n ≫= parse_options cfg) s
  = Ret argv s1 →
  palloc_get_page (pts s1) = (Some r, p0) →
  ∃ s2, mem s2 = mem s1 ∧ option_variables s2 = option_variables s1 ∧
        console s2 = console s1 ++ ["Boot complete." +:+ nl] ∧
        match run_actions cfg argv s2 with
        | Stop h s3 => main cfg L n MEM_END s = Stop h s3
        | Ret _ s3 =>
            main cfg L n MEM_END s
            = if power_off_when_done s1
              then Stop PoweredOff
                     (set_trace (trace s3 ++ shutdown_events cfg)
                        (set_console (console s3 ++ ["Powering off..." +:+ nl])
                           s3))
              else Stop ThreadExited
                     (set_trace (trace s3 ++ [EvCall "thread_exit"]) s3)
        end.
Proof.
  intros Hpg H0 Hend Hopt Hp.
  destruct (main_reaches_actions cfg L n MEM_END s argv s1 r p0
              Hpg H0 Hend Hopt Hp) as (s2 & Hm & Hv & Hc & Hmain).
  exists s2. split; [done|]. split; [done|]. split; [done|].
  pose proof (keeps_run_actions
                (λ a b : kstate PT, option_variables b = option_variables a)
                ltac:(done) ltac:(intros; congruence) ltac:(done) ltac:(done)
                cfg argv s2) as Hkeep.
  destruct (run_actions cfg argv s2) as [[] s3|h s3] eqn:Hrun;
    rewrite Hmain; unfold mbind at 1, M_bind at 1, bind at 1; rewrite Hrun;
    [|done].
  simpl in Hkeep. rewrite Hv in Hkeep.
  assert (Hq : power_off_when_done s3 = power_off_when_done s1).
  { unfold option_variables in Hkeep. congruence. }
  unfold mbind at 1, M_bind at 1, bind at 1. unfold get at 1.
  rewrite Hq. destruct (power_off_when_done s1); unfold when.
  - unfold mbind at 1, M_bind at 1, bind at 1. by rewrite power_off_run.
  - reflexivity.
Qed.

(** X21: without a page for the root table the boot ends inside
    [paging_init]: [main] halts in the assertion of the allocator after
    the four start-up calls that precede [paging_init]; no later start-up
    routine is called and the action script does not run. *)
Theorem main_without_root cfg L n MEM_END s argv s1 (p0 : PT) :
  (bss_init ≫= λ _, read_command_line L n ≫= parse_options cfg) s
  = Ret argv s1 →
  palloc_get_page (pts s1) = (None, p0) →
  ∃ s', main cfg L n MEM_END s = Stop (PanicExt "palloc_get_page") s' ∧
        trace s'
        = trace s1 ++ startup_before_paging ++
          [EvPallocGetPage "PAL_ASSERT | PAL_ZERO"] ∧
        console s' = console s1.
Proof.
  intros Hopt Hp.
  rewrite main_after_options.
  unfold mbind at 1, M_bind at 1, bind at 1. rewrite Hopt.
  rewrite call_first, !call_next.
  unfold mbind at 1, M_bind at 1, bind at 1.
  unfold paging_init. unfold_monad. simpl. rewrite Hp.
  eexists. split; [reflexivity|]. simpl. by rewrite <- !app_assoc.
Qed.
End MainTheorems.

Lemma main_stops_with_options_witness :
  main (Build true true false) 128 1 0x4000
    (boot_state (pack ["-x"]) (flat_init 8))
  = Stop (Panic "unknown option `-x' (use -h for help)")
      (echoed ["-x"] (boot_state (pack ["-x"]) (flat_init 8))).
Proof.
  refine (proj1 (main_stops_with_options (Build true true false) 128 1 0x4000
                   (boot_state (pack ["-x"]) (flat_init 8)) _ _ _)).
  by vm_compute.
Defined.

Lemma main_ends_witness :
  ∃ s2, console s2 = ["Kernel command line:"; " -q"; nl; "Boot complete." +:+ nl] ∧
        match run_actions (Build true true false) [] s2 with
        | Stop h s3 =>
            main (Build true true false) 128 1 0x4000
              (boot_state (pack ["-q"]) (flat_init 8)) = Stop h s3
        | Ret _ s3 =>
            main (Build true true false) 128 1 0x4000
              (boot_state (pack ["-q"]) (flat_init 8))
            = Stop PoweredOff
                (set_trace (trace s3 ++ shutdown_events (Build true true false))
                   (set_console (console s3 ++ ["Powering off..." +:+ nl]) s3))
        end.
Proof.
  destruct (main_ends (Build true true false) 128 1 0x4000
              (boot_state (pack ["-q"]) (flat_init 8)) []
              (set_power_off_when_done true
                 (echoed ["-q"] (boot_state (pack ["-q"]) (flat_init 8))))
              0x100000 (FlatPt ∅ ∅ 7))
    as (s2 & _ & _ & Hc & Hrun);
    [by vm_compute | by vm_compute | by vm_compute | by vm_compute
    | reflexivity |].
  exists s2. split; [exact Hc | exact Hrun].
Defined.

Lemma main_without_root_witness :
  ∃ s', main (Build true true false) 128 1 0x4000
          (boot_state (pack ["-q"]) (flat_init 0))
        = Stop (PanicExt "palloc_get_page") s'.
Proof.
  destruct (main_without_root (Build true true false) 128 1 0x4000
              (boot_state (pack ["-q"]) (flat_init 0)) []
              (set_power_off_when_done true
                 (echoed ["-q"] (boot_state (pack ["-q"]) (flat_init 0))))
              (flat_init 0))
    as (s' & Hrun & _); [by vm_compute | reflexivity |].
  exists s'. exact Hrun.
Defined.
